(** * PID lane follower (AutonomousRacingCar/Code_part1.py)

    A shallow embedding of the two controller classes of the notebook,
    [PID] and [PIDLaneFollower], and of the parameter record [PIDParams],
    followed by the properties of the design document that concern them.

    Numbers.  The Python code computes with [float] (and the integer
    literal [0]).  They are modelled by exact rationals [Q]: sums, products
    and comparisons are the mathematical ones, and rounding, infinities and
    NaN are outside the model.  A division whose divisor is zero raises
    [ZeroDivisionError], as Python's [/] does on floats.  Equality of
    numbers is stated with [==] ([Qeq]) unless both sides are produced by
    the very same computation.

    Where a property depends on rounding or overflow, [PID.solve] is
    embedded a second time, in [PID64], on the IEEE 754 binary64 numbers
    that Python's [float] and [numpy.float64] are: the values and the
    correctly rounded operations of the Standard Library's [SpecFloat], at
    precision 53 and maximal exponent 1024.

    Objects.  A Python object is a record of its attributes; a method that
    assigns attributes returns the updated record.  An attribute that may
    hold [None], or may not have been assigned yet, has an [option] type.

    Exceptions.  A call that can raise returns a [result]. *)

From Stdlib Require Import ZArith QArith Qminmax Qabs Lqa Lia List String Bool.
From Stdlib Require Import SpecFloat.
Import ListNotations.
Open Scope Q_scope.

(** ** Exceptions and results *)

(** The exception classes the code can raise: [RuntimeError] explicitly in
    [PID.solve], [NotImplementedError] explicitly in
    [PIDLaneFollower.solve], the other two by the language itself (a
    division by zero, an attribute looked up on [None] or not assigned). *)
Inductive exn : Type :=
| RuntimeError (msg : string)
| ZeroDivisionError
| AttributeError
| NotImplementedError.

Definition class_name (ex : exn) : string :=
  match ex with
  | RuntimeError _ => "RuntimeError"
  | ZeroDivisionError => "ZeroDivisionError"
  | AttributeError => "AttributeError"
  | NotImplementedError => "NotImplementedError"
  end.

Inductive result (A : Type) : Type :=
| Ok (a : A)
| Raise (ex : exn).

Arguments Ok {A} a.
Arguments Raise {A} ex.

Definition bind {A B : Type} (m : result A) (k : A -> result B) : result B :=
  match m with
  | Ok a => k a
  | Raise ex => Raise ex
  end.

Notation "x <- m ;; k" := (bind m (fun x => k))
  (at level 61, m at next level, right associativity).

Definition raises {A : Type} (m : result A) : Prop :=
  match m with
  | Ok _ => False
  | Raise _ => True
  end.

Definition returns {A : Type} (m : result A) : Prop :=
  match m with
  | Ok _ => True
  | Raise _ => False
  end.

(** ** Numbers *)

(** [a > b] and [a < b] of Python, as booleans. *)
Definition Qgtb (a b : Q) : bool := negb (Qle_bool a b).
Definition Qltb (a b : Q) : bool := negb (Qle_bool b a).

(** [a / b] on Python floats, the type the signatures give the
    measurement: a zero divisor raises.  (When an operand is a
    [numpy.float64] the same division returns an infinity or NaN instead;
    such operands, like rounding and overflow, are outside the exact
    model.) *)
Definition py_div (a b : Q) : result Q :=
  if Qeq_bool b 0 then Raise ZeroDivisionError else Ok (a / b).

(** [np.minimum] and [np.maximum] on two scalars that are numbers; what
    they do with a NaN is modelled in [B64]. *)
Definition np_minimum (a b : Q) : Q := Qmin a b.
Definition np_maximum (a b : Q) : Q := Qmax a b.

(** ** PIDParams *)

Module PIDParams.

Record t : Type := mk {
  dt : Q;
  Kp : Q;
  Ki : Q;
  Kd : Q;
  int_e_max : Q;
  int_e_min : Q;
  u_max : option Q;
  u_min : option Q;
  du_max : option Q;
  du_min : option Q;
  u_ref : Q;
  x_ref : Q
}.

(** [PIDParams()]: the field defaults of the dataclass. *)
Definition default : t :=
  {| dt := 1 # 10; Kp := 2; Ki := 0; Kd := 0;
     int_e_max := 100; int_e_min := - (100);
     u_max := None; u_min := None; du_max := None; du_min := None;
     u_ref := 0; x_ref := 0 |}.

(** [params.dt = v]. *)
Definition set_dt (v : Q) (p : t) : t :=
  mk v (Kp p) (Ki p) (Kd p) (int_e_max p) (int_e_min p)
     (u_max p) (u_min p) (du_max p) (du_min p) (u_ref p) (x_ref p).

End PIDParams.

(** ** PID *)

Module PID.

(** The attributes of a [PID] instance, in the order [__init__] assigns
    them. *)
Record t : Type := mk {
  dt : Q;
  Kp : Q;
  Ki : Q;
  Kd : Q;
  int_e_max : Q;
  int_e_min : Q;
  u_max : option Q;
  u_min : option Q;
  du_max : option Q;
  du_min : option Q;
  x_ref : Q;
  u_ref : Q;
  u_prev : option Q;
  e : Q;
  de : Q;
  ei : Q;
  initialized : bool
}.

(** The attributes [__init__] assigns: the parameters are copied and the
    loop state is zeroed. *)
Definition fresh (params : PIDParams.t) : t :=
  {| dt := PIDParams.dt params;
     Kp := PIDParams.Kp params;
     Ki := PIDParams.Ki params;
     Kd := PIDParams.Kd params;
     int_e_max := PIDParams.int_e_max params;
     int_e_min := PIDParams.int_e_min params;
     u_max := PIDParams.u_max params;
     u_min := PIDParams.u_min params;
     du_max := PIDParams.du_max params;
     du_min := PIDParams.du_min params;
     x_ref := PIDParams.x_ref params;
     u_ref := PIDParams.u_ref params;
     u_prev := Some 0;
     e := 0;
     de := 0;
     ei := 0;
     initialized := true |}.

(** [PID(params)].  The constructor contains no check and no [raise]. *)
Definition init (params : PIDParams.t) : result t := Ok (fresh params).

(** The clipping helpers.  [solve] calls each one only when the bound it
    reads is not [None], so the bound is passed as a number. *)
Definition _saturate_abs_high (self_u_max : Q) (u : Q) : Q :=
  np_minimum u self_u_max.

Definition _saturate_abs_low (self_u_min : Q) (u : Q) : Q :=
  np_maximum u self_u_min.

Definition _saturate_rel_high (self_du_max : Q) (du : Q) : Q :=
  np_minimum du self_du_max.

Definition _saturate_rel_low (self_du_min : Q) (du : Q) : Q :=
  np_maximum du self_du_min.

(** The local variables of one [solve] call, as they stand when the
    method reaches its commit ([# Update error terms]).  [u_base] is the
    resolved [u_prev], [u_raw] the command before any limit, [du_sat] the
    saturated change, [u_rate] the command after the rate limit and
    [u_out] the one after the absolute limit. *)
Record locals : Type := mk_locals {
  u_base : Q;
  e_t : Q;
  de_t : Q;
  ei_t : Q;
  u_raw : Q;
  du_sat : Q;
  u_rate : Q;
  u_out : Q
}.

(** The diagnostics dictionary [{'success': True}]. *)
Record info : Type := mk_info { success : bool }.

(** The body of [solve] up to the commit: no attribute is assigned
    before this point, so a [raise] leaves the instance as it was. *)
Definition solve_locals (self : t) (x : Q) (u_prev : option Q)
  : result locals :=
  if negb (initialized self) then
    Raise (RuntimeError
      "PID controller is not initialized, run PID.initialize() before calling PID.solve()")
  else
    let u_prev :=
      match PID.u_prev self, u_prev with
      | None, None => 0
      | Some stored, None => stored
      | _, Some given => given
      end in
    (* Compute error terms *)
    let e_t := x - x_ref self in
    de_t <- py_div (e_t - e self) (dt self) ;;
    let ei_t := ei self + e_t * dt self in
    (* Anti-windup *)
    let ei_t :=
      if Qgtb ei_t (int_e_max self) then int_e_max self
      else if Qltb ei_t (int_e_min self) then int_e_min self
      else ei_t in
    (* Compute control action terms *)
    let P_val := Kp self * e_t in
    let I_val := Ki self * ei_t in
    let D_val := Kd self * de_t in
    let u := - (P_val + I_val + D_val) + u_ref self in
    (* Compute change in control action from previous timestep *)
    let du := u - u_prev in
    (* Saturate change in control action *)
    let du1 :=
      match du_max self with
      | Some hi => _saturate_rel_high hi du
      | None => du
      end in
    let du2 :=
      match du_min self with
      | Some lo => _saturate_rel_low lo du1
      | None => du1
      end in
    let u1 := du2 + u_prev in
    (* Saturate absolute control action *)
    let u2 :=
      match u_max self with
      | Some hi => _saturate_abs_high hi u1
      | None => u1
      end in
    let u3 :=
      match u_min self with
      | Some lo => _saturate_abs_low lo u2
      | None => u2
      end in
    Ok {| u_base := u_prev; e_t := e_t; de_t := de_t; ei_t := ei_t;
          u_raw := u; du_sat := du2; u_rate := u1; u_out := u3 |}.

(** The commit: [self.e], [self.de], [self.ei] and [self.u_prev]. *)
Definition commit (self : t) (l : locals) : t :=
  mk (dt self) (Kp self) (Ki self) (Kd self)
     (int_e_max self) (int_e_min self)
     (u_max self) (u_min self) (du_max self) (du_min self)
     (x_ref self) (u_ref self)
     (Some (u_out l)) (e_t l) (de_t l) (ei_t l) (initialized self).

(** [self.solve(x, u_prev)]: the returned pair [(u, info)] and the
    instance after the call. *)
Definition solve (self : t) (x : Q) (u_prev : option Q)
  : result (Q * info * t) :=
  l <- solve_locals self x u_prev ;;
  Ok (u_out l, {| success := true |}, commit self l).

Definition set_x_ref (self : t) (x_ref : Q) : t :=
  mk (dt self) (Kp self) (Ki self) (Kd self)
     (int_e_max self) (int_e_min self)
     (u_max self) (u_min self) (du_max self) (du_min self)
     x_ref (u_ref self)
     (u_prev self) 0 (de self) 0 (initialized self).

Definition set_u_ref (self : t) (u_ref : Q) : t :=
  mk (dt self) (Kp self) (Ki self) (Kd self)
     (int_e_max self) (int_e_min self)
     (u_max self) (u_min self) (du_max self) (du_min self)
     (x_ref self) u_ref
     (u_prev self) (e self) (de self) (ei self) (initialized self).

Definition clear_errors (self : t) : t :=
  mk (dt self) (Kp self) (Ki self) (Kd self)
     (int_e_max self) (int_e_min self)
     (u_max self) (u_min self) (du_max self) (du_min self)
     (x_ref self) (u_ref self)
     (u_prev self) (e self) 0 0 (initialized self).

Definition set_params (self : t) (params : PIDParams.t) : t :=
  mk (PIDParams.dt params) (PIDParams.Kp params) (PIDParams.Ki params)
     (PIDParams.Kd params)
     (PIDParams.int_e_max params) (PIDParams.int_e_min params)
     (PIDParams.u_max params) (PIDParams.u_min params)
     (PIDParams.du_max params) (PIDParams.du_min params)
     (x_ref self) (u_ref self)
     (u_prev self) (e self) (de self) (ei self) (initialized self).

Definition get_refs (self : t) : Q * Q := (x_ref self, u_ref self).

Definition get_errors (self : t) : Q * Q * Q := (e self, de self, ei self).

End PID.


(** ** VehicleState

    The message records of [mpclab_common.pytypes], as the notebook quotes
    them.  The sub-messages of a [VehicleState] default to [None].  Of the
    fields the controller never touches, only the global position [x] is
    kept. *)

Module Position.

Record t : Type := mk { x : Q; y : Q; z : Q }.

End Position.

Module BodyLinearVelocity.

Record t : Type := mk { v_long : Q; v_tran : Q; v_n : Q }.

End BodyLinearVelocity.

Module ParametricPose.

Record t : Type := mk { s : Q; x_tran : Q; n : Q; e_psi : Q }.

End ParametricPose.

Module VehicleActuation.

Record t : Type := mk { t_ : Q; u_a : Q; u_steer : Q }.

Definition set_u_a (a : Q) (u : t) : t := mk (t_ u) a (u_steer u).

Definition set_u_steer (a : Q) (u : t) : t := mk (t_ u) (u_a u) a.

End VehicleActuation.

Module VehicleState.

Record t : Type := mk {
  t_ : option Q;
  x : option Position.t;
  v : option BodyLinearVelocity.t;
  p : option ParametricPose.t;
  u : option VehicleActuation.t
}.

Definition set_u (a : VehicleActuation.t) (st : t) : t :=
  mk (t_ st) (x st) (v st) (p st) (Some a).

End VehicleState.

(** ** PIDLaneFollower *)

Module PIDLaneFollower.

(** The attributes of the controller object.  Each is [None] until
    [__init__] has assigned it. *)
Record t : Type := mk {
  dt : option Q;
  steer_pid_params : option PIDParams.t;
  speed_pid_params : option PIDParams.t;
  steer_pid : option PID.t;
  speed_pid : option PID.t;
  lat_ref : option Q;
  requires_env_state : option bool
}.

(** The object as [__new__] hands it to [__init__]: no attribute yet. *)
Definition alloc : t := mk None None None None None None None.

Definition set_steer_pid (a : PID.t) (self : t) : t :=
  mk (dt self) (steer_pid_params self) (speed_pid_params self)
     (Some a) (speed_pid self) (lat_ref self) (requires_env_state self).

Definition set_speed_pid (a : PID.t) (self : t) : t :=
  mk (dt self) (steer_pid_params self) (speed_pid_params self)
     (steer_pid self) (Some a) (lat_ref self) (requires_env_state self).

(** Reading an attribute of an object, or of [None]. *)
Definition getattr {A : Type} (a : option A) : result A :=
  match a with
  | Some v => Ok v
  | None => Raise AttributeError
  end.

Section Constructor.

(** [default_steer_params] and [default_speed_params] are methods the
    constructor calls on a fresh [PIDParams] when it is given [None];
    neither the notebook's [PIDParams] nor anything else in the file
    defines them, so they are parameters here.  Each receives the record
    and yields the record it leaves behind, or raises. *)
Variable default_steer_params : PIDParams.t -> result PIDParams.t.
Variable default_speed_params : PIDParams.t -> result PIDParams.t.

(** [PIDLaneFollower(dt, steer_pid_params, speed_pid_params)]. *)
Definition init (dt : Q) (steer_pid_params speed_pid_params : option PIDParams.t)
  : result t :=
  (* If no steering parameters provided, create default ones *)
  steer_pid_params <-
    match steer_pid_params with
    | None => default_steer_params (PIDParams.set_dt dt PIDParams.default)
    | Some given => Ok given
    end ;;
  (* If no speed parameters provided, create default ones *)
  speed_pid_params <-
    match speed_pid_params with
    | None => default_speed_params (PIDParams.set_dt dt PIDParams.default)
    | Some given => Ok given
    end ;;
  (* Store the time step *)
  let steer_pid_params := PIDParams.set_dt dt steer_pid_params in
  let speed_pid_params := PIDParams.set_dt dt speed_pid_params in
  (* Create PID controller instances for steering and speed *)
  steer_pid <- PID.init steer_pid_params ;;
  speed_pid <- PID.init speed_pid_params ;;
  (* Store the lateral (lane) reference position *)
  let lat_ref := PIDParams.x_ref steer_pid_params in
  let steer_pid := PID.set_x_ref steer_pid 0 in
  Ok {| dt := Some dt;
        steer_pid_params := Some steer_pid_params;
        speed_pid_params := Some speed_pid_params;
        steer_pid := Some steer_pid;
        speed_pid := Some speed_pid;
        lat_ref := Some lat_ref;
        requires_env_state := Some false |}.

End Constructor.

(** [self.reset()]: both loops are built again from the stored
    parameters. *)
Definition reset (self : t) : result t :=
  steer_params <- getattr (steer_pid_params self) ;;
  steer <- PID.init steer_params ;;
  speed_params <- getattr (speed_pid_params self) ;;
  speed <- PID.init speed_params ;;
  Ok (set_speed_pid speed (set_steer_pid steer self)).

Definition initialize (self : t) : result unit := Ok tt.

Definition solve (self : t) : result unit := Raise NotImplementedError.

Definition get_prediction (self : t) : option unit := None.

Definition get_safe_set (self : t) : option unit := None.

(** [step] assigns attributes of two objects, the controller and the
    caller's [vehicle_state], and what it has assigned stays assigned when
    a later statement raises.  Its statements are therefore computations on
    the pair of the two objects. *)
Record world : Type := mk_world {
  self_ : t;
  vehicle_state : VehicleState.t
}.

Definition M (A : Type) : Type := world -> result A * world.

Definition ret {A : Type} (a : A) : M A := fun w => (Ok a, w).

Definition bindM {A B : Type} (m : M A) (k : A -> M B) : M B :=
  fun w =>
    match m w with
    | (Ok a, w') => k a w'
    | (Raise ex, w') => (Raise ex, w')
    end.

Notation "x <~ m ;; k" := (bindM m (fun x => k))
  (at level 61, m at next level, right associativity).

(** An attribute read in the current state of the two objects. *)
Definition read {A : Type} (f : world -> option A) : M A :=
  fun w => (getattr (f w), w).

(** A call that does not touch the two objects. *)
Definition lift {A : Type} (r : result A) : M A := fun w => (r, w).

Definition write (f : world -> world) : M unit := fun w => (Ok tt, f w).

(** [self.speed_pid.solve(x)] and [self.steer_pid.solve(x)]: the loop is
    looked up, solved, and left in its new state. *)
Definition speed_pid_solve (x : Q) : M (Q * PID.info) :=
  pid <~ read (fun w => speed_pid (self_ w)) ;;
  r <~ lift (PID.solve pid x None) ;;
  _ <~ write (fun w => mk_world (set_speed_pid (snd r) (self_ w))
                                (vehicle_state w)) ;;
  ret (fst r).

Definition steer_pid_solve (x : M Q) : M (Q * PID.info) :=
  pid <~ read (fun w => steer_pid (self_ w)) ;;
  x <~ x ;;
  r <~ lift (PID.solve pid x None) ;;
  _ <~ write (fun w => mk_world (set_steer_pid (snd r) (self_ w))
                                (vehicle_state w)) ;;
  ret (fst r).

(** [vehicle_state.u.u_a = a] and [vehicle_state.u.u_steer = a]. *)
Definition assign_u_a (a : Q) : M unit :=
  u <~ read (fun w => VehicleState.u (vehicle_state w)) ;;
  write (fun w => mk_world (self_ w)
    (VehicleState.set_u (VehicleActuation.set_u_a a u) (vehicle_state w))).

Definition assign_u_steer (a : Q) : M unit :=
  u <~ read (fun w => VehicleState.u (vehicle_state w)) ;;
  write (fun w => mk_world (self_ w)
    (VehicleState.set_u (VehicleActuation.set_u_steer a u) (vehicle_state w))).

(** [self.step(vehicle_state)], statement by statement.  In an assignment
    the right-hand side is evaluated before the target, and in a call the
    method is looked up before its argument is evaluated. *)
Definition step_M : M (list Q) :=
  (* Extract the current longitudinal velocity *)
  vel <~ read (fun w => VehicleState.v (vehicle_state w)) ;;
  let v := BodyLinearVelocity.v_long vel in
  (* Compute acceleration command using speed PID controller *)
  r <~ speed_pid_solve v ;;
  _ <~ assign_u_a (fst r) ;;
  let alpha := 5 in
  let beta := 1 in
  (* Compute steering command using steering PID controller *)
  r <~ steer_pid_solve
         (p1 <~ read (fun w => VehicleState.p (vehicle_state w)) ;;
          lat <~ read (fun w => lat_ref (self_ w)) ;;
          p2 <~ read (fun w => VehicleState.p (vehicle_state w)) ;;
          ret (alpha * (ParametricPose.x_tran p1 - lat)
               + beta * ParametricPose.e_psi p2)) ;;
  _ <~ assign_u_steer (fst r) ;;
  u1 <~ read (fun w => VehicleState.u (vehicle_state w)) ;;
  u2 <~ read (fun w => VehicleState.u (vehicle_state w)) ;;
  ret [VehicleActuation.u_a u1; VehicleActuation.u_steer u2].

(** The outcome of a [step] call: what it returns or raises, and the two
    objects as the call leaves them. *)
Definition step (self : t) (vehicle_state : VehicleState.t)
  : result (list Q) * world :=
  step_M (mk_world self vehicle_state).

End PIDLaneFollower.


(** ** Binary64 numbers

    A Python [float] is a binary64 number: [spec_float] has its values (the
    two zeros, the two infinities, NaN and the finite [+-m * 2^e]), and the
    operations below round to nearest, ties to even, as the hardware
    does. *)

Module B64.

Definition prec : Z := 53.

Definition emax : Z := 1024.

(** The float nearest to an integer, and the float a decimal literal
    [n / d] denotes ([0.1] is [decimal 1 10]): the correctly rounded
    quotient of two integers that are floats themselves. *)
Definition of_Z (z : Z) : spec_float := binary_normalize prec emax z 0 false.

Definition decimal (n d : Z) : spec_float :=
  SFdiv prec emax (of_Z n) (of_Z d).

(** The integer literal [0] of the source, once it meets a float. *)
Definition zero : spec_float := S754_zero false.

Definition add (a b : spec_float) : spec_float := SFadd prec emax a b.

Definition sub (a b : spec_float) : spec_float := SFsub prec emax a b.

Definition mul (a b : spec_float) : spec_float := SFmul prec emax a b.

Definition div (a b : spec_float) : spec_float := SFdiv prec emax a b.

Definition opp (a : spec_float) : spec_float := SFopp a.

Definition abs (a : spec_float) : spec_float := SFabs a.

(** [a <= b], [a < b] and [a > b]: false as soon as one side is NaN. *)
Definition leb (a b : spec_float) : bool := SFleb a b.

Definition ltb (a b : spec_float) : bool := SFltb a b.

Definition gtb (a b : spec_float) : bool := SFltb b a.

Definition is_nan (a : spec_float) : bool :=
  match a with
  | S754_nan => true
  | _ => false
  end.

(** [a / b] on Python floats: a zero divisor of either sign raises, a NaN
    divisor does not, and an overflow gives an infinity. *)
Definition py_div (a b : spec_float) : result spec_float :=
  if SFeqb b zero then Raise ZeroDivisionError else Ok (div a b).

(** [np.minimum] and [np.maximum] on two scalars: the first argument when
    it is NaN or on the right side of the comparison, else the second, so
    that a NaN on either side is returned. *)
Definition np_minimum (a b : spec_float) : spec_float :=
  if leb a b || is_nan a then a else b.

Definition np_maximum (a b : spec_float) : spec_float :=
  if leb b a || is_nan a then a else b.

End B64.

(** ** PIDParams and PID on binary64 *)

Module PIDParams64.

Record t : Type := mk {
  dt : spec_float;
  Kp : spec_float;
  Ki : spec_float;
  Kd : spec_float;
  int_e_max : spec_float;
  int_e_min : spec_float;
  u_max : option spec_float;
  u_min : option spec_float;
  du_max : option spec_float;
  du_min : option spec_float;
  u_ref : spec_float;
  x_ref : spec_float
}.

End PIDParams64.

Module PID64.

Record t : Type := mk {
  dt : spec_float;
  Kp : spec_float;
  Ki : spec_float;
  Kd : spec_float;
  int_e_max : spec_float;
  int_e_min : spec_float;
  u_max : option spec_float;
  u_min : option spec_float;
  du_max : option spec_float;
  du_min : option spec_float;
  x_ref : spec_float;
  u_ref : spec_float;
  u_prev : option spec_float;
  e : spec_float;
  de : spec_float;
  ei : spec_float;
  initialized : bool
}.

(** The attributes [__init__] assigns. *)
Definition fresh (params : PIDParams64.t) : t :=
  {| dt := PIDParams64.dt params;
     Kp := PIDParams64.Kp params;
     Ki := PIDParams64.Ki params;
     Kd := PIDParams64.Kd params;
     int_e_max := PIDParams64.int_e_max params;
     int_e_min := PIDParams64.int_e_min params;
     u_max := PIDParams64.u_max params;
     u_min := PIDParams64.u_min params;
     du_max := PIDParams64.du_max params;
     du_min := PIDParams64.du_min params;
     x_ref := PIDParams64.x_ref params;
     u_ref := PIDParams64.u_ref params;
     u_prev := Some B64.zero;
     e := B64.zero;
     de := B64.zero;
     ei := B64.zero;
     initialized := true |}.

Definition init (params : PIDParams64.t) : result t := Ok (fresh params).

Definition _saturate_abs_high (self_u_max : spec_float) (u : spec_float)
  : spec_float :=
  B64.np_minimum u self_u_max.

Definition _saturate_abs_low (self_u_min : spec_float) (u : spec_float)
  : spec_float :=
  B64.np_maximum u self_u_min.

Definition _saturate_rel_high (self_du_max : spec_float) (du : spec_float)
  : spec_float :=
  B64.np_minimum du self_du_max.

Definition _saturate_rel_low (self_du_min : spec_float) (du : spec_float)
  : spec_float :=
  B64.np_maximum du self_du_min.

(** The local variables of one [solve] call at its commit, named as in
    [PID.locals]. *)
Record locals : Type := mk_locals {
  u_base : spec_float;
  e_t : spec_float;
  de_t : spec_float;
  ei_t : spec_float;
  u_raw : spec_float;
  du_sat : spec_float;
  u_rate : spec_float;
  u_out : spec_float
}.

(** The body of [solve] up to the commit. *)
Definition solve_locals (self : t) (x : spec_float)
  (u_prev : option spec_float) : result locals :=
  if negb (initialized self) then
    Raise (RuntimeError
      "PID controller is not initialized, run PID.initialize() before calling PID.solve()")
  else
    let u_prev :=
      match PID64.u_prev self, u_prev with
      | None, None => B64.zero
      | Some stored, None => stored
      | _, Some given => given
      end in
    (* Compute error terms *)
    let e_t := B64.sub x (x_ref self) in
    de_t <- B64.py_div (B64.sub e_t (e self)) (dt self) ;;
    let ei_t := B64.add (ei self) (B64.mul e_t (dt self)) in
    (* Anti-windup *)
    let ei_t :=
      if B64.gtb ei_t (int_e_max self) then int_e_max self
      else if B64.ltb ei_t (int_e_min self) then int_e_min self
      else ei_t in
    (* Compute control action terms *)
    let P_val := B64.mul (Kp self) e_t in
    let I_val := B64.mul (Ki self) ei_t in
    let D_val := B64.mul (Kd self) de_t in
    let u :=
      B64.add (B64.opp (B64.add (B64.add P_val I_val) D_val)) (u_ref self) in
    (* Compute change in control action from previous timestep *)
    let du := B64.sub u u_prev in
    (* Saturate change in control action *)
    let du1 :=
      match du_max self with
      | Some hi => _saturate_rel_high hi du
      | None => du
      end in
    let du2 :=
      match du_min self with
      | Some lo => _saturate_rel_low lo du1
      | None => du1
      end in
    let u1 := B64.add du2 u_prev in
    (* Saturate absolute control action *)
    let u2 :=
      match u_max self with
      | Some hi => _saturate_abs_high hi u1
      | None => u1
      end in
    let u3 :=
      match u_min self with
      | Some lo => _saturate_abs_low lo u2
      | None => u2
      end in
    Ok {| u_base := u_prev; e_t := e_t; de_t := de_t; ei_t := ei_t;
          u_raw := u; du_sat := du2; u_rate := u1; u_out := u3 |}.

(** The commit: [self.e], [self.de], [self.ei] and [self.u_prev]. *)
Definition commit (self : t) (l : locals) : t :=
  mk (dt self) (Kp self) (Ki self) (Kd self)
     (int_e_max self) (int_e_min self)
     (u_max self) (u_min self) (du_max self) (du_min self)
     (x_ref self) (u_ref self)
     (Some (u_out l)) (e_t l) (de_t l) (ei_t l) (initialized self).

(** [self.solve(x, u_prev)]. *)
Definition solve (self : t) (x : spec_float) (u_prev : option spec_float)
  : result (spec_float * PID.info * t) :=
  l <- solve_locals self x u_prev ;;
  Ok (u_out l, {| PID.success := true |}, commit self l).

End PID64.

(** The calls of a list in sequence on a binary64 core, each without
    [u_prev] argument: the locals of the last call. *)
Fixpoint last_locals64 (self : PID64.t) (x : spec_float)
  (xs : list spec_float) : result PID64.locals :=
  match xs with
  | [] => PID64.solve_locals self x None
  | x' :: rest =>
      l <- PID64.solve_locals self x None ;;
      last_locals64 (PID64.commit self l) x' rest
  end.

Definition is_some {A : Type} (a : option A) : bool :=
  match a with Some _ => true | None => false end.

(** ** Drivers

    The callers of the notebook invoke a loop once per control cycle.  The
    two functions below run a [PID] over a list of calls, each a
    measurement with its optional [u_prev] argument. *)

(** The instance after one call, whether the call returned or raised (a
    call that raises has assigned nothing). *)
Definition after_call (self : PID.t) (call : Q * option Q) : PID.t :=
  match PID.solve self (fst call) (snd call) with
  | Ok r => snd r
  | Raise _ => self
  end.

Definition after_calls (self : PID.t) (calls : list (Q * option Q)) : PID.t :=
  fold_left after_call calls self.

(** The calls in sequence, stopping at the first that raises: the outputs
    and the final instance. *)
Fixpoint solve_all (self : PID.t) (calls : list (Q * option Q))
  : result (list Q * PID.t) :=
  match calls with
  | [] => Ok ([], self)
  | call :: rest =>
      r <- PID.solve self (fst call) (snd call) ;;
      rs <- solve_all (snd r) rest ;;
      Ok (fst (fst r) :: fst rs, snd rs)
  end.

(** The output of a call without [u_prev] that follows a call made with
    [u_prev = given]. *)
Definition output_after (self : PID.t) (x1 : Q) (given : option Q) (x2 : Q)
  : result Q :=
  r1 <- PID.solve self x1 given ;;
  r2 <- PID.solve (snd r1) x2 None ;;
  Ok (fst (fst r2)).

(** [reset()] then [step], and [step] on a newly built controller. *)
Definition step_after_reset (self : PIDLaneFollower.t)
  (vehicle_state : VehicleState.t) : result (result (list Q)) :=
  self' <- PIDLaneFollower.reset self ;;
  Ok (fst (PIDLaneFollower.step self' vehicle_state)).

(** The instance with its [u_prev] attribute replaced. *)
Definition with_u_prev (v : option Q) (self : PID.t) : PID.t :=
  PID.mk (PID.dt self) (PID.Kp self) (PID.Ki self) (PID.Kd self)
         (PID.int_e_max self) (PID.int_e_min self)
         (PID.u_max self) (PID.u_min self) (PID.du_max self) (PID.du_min self)
         (PID.x_ref self) (PID.u_ref self)
         v (PID.e self) (PID.de self) (PID.ei self) (PID.initialized self).

(** The instance with its [de] attribute replaced. *)
Definition with_de (v : Q) (self : PID.t) : PID.t :=
  PID.mk (PID.dt self) (PID.Kp self) (PID.Ki self) (PID.Kd self)
         (PID.int_e_max self) (PID.int_e_min self)
         (PID.u_max self) (PID.u_min self) (PID.du_max self) (PID.du_min self)
         (PID.x_ref self) (PID.u_ref self)
         (PID.u_prev self) (PID.e self) v (PID.ei self) (PID.initialized self).

(** The parameters an instance holds, read back as a [PIDParams]. *)
Definition params_of (self : PID.t) : PIDParams.t :=
  PIDParams.mk (PID.dt self) (PID.Kp self) (PID.Ki self) (PID.Kd self)
               (PID.int_e_max self) (PID.int_e_min self)
               (PID.u_max self) (PID.u_min self)
               (PID.du_max self) (PID.du_min self)
               (PID.u_ref self) (PID.x_ref self).

(** What the simulation loop of the notebook does with the controller:
    [reset()] and [step(vehicle_state)], the record of each cycle being
    supplied by the environment. *)
Inductive event : Type :=
| Step (vehicle_state : VehicleState.t)
| Reset.

(** The events in sequence, stopping at the first that raises: the vectors
    the [step] calls returned and the controller at the end. *)
Fixpoint run (self : PIDLaneFollower.t) (events : list event)
  : result (list (list Q) * PIDLaneFollower.t) :=
  match events with
  | [] => Ok ([], self)
  | Step vehicle_state :: rest =>
      match PIDLaneFollower.step self vehicle_state with
      | (Ok out, w) =>
          rs <- run (PIDLaneFollower.self_ w) rest ;;
          Ok (out :: fst rs, snd rs)
      | (Raise ex, _) => Raise ex
      end
  | Reset :: rest =>
      self' <- PIDLaneFollower.reset self ;;
      run self' rest
  end.

(** A state record that has the three sub-records [step] uses. *)
Definition well_formed (vs : VehicleState.t) : bool :=
  is_some (VehicleState.v vs) && is_some (VehicleState.p vs)
  && is_some (VehicleState.u vs).

Definition well_formed_event (ev : event) : bool :=
  match ev with
  | Step vs => well_formed vs
  | Reset => true
  end.

Definition is_step (ev : event) : bool :=
  match ev with
  | Step _ => true
  | Reset => false
  end.

(** A controller that has its two loops, its lane reference and its stored
    parameters, with the flag of both loops set and no [dt] equal to
    zero. *)
Definition ready (c : PIDLaneFollower.t) : Prop :=
  exists speed steer lat steer_params speed_params,
    PIDLaneFollower.speed_pid c = Some speed
    /\ PIDLaneFollower.steer_pid c = Some steer
    /\ PIDLaneFollower.lat_ref c = Some lat
    /\ PIDLaneFollower.steer_pid_params c = Some steer_params
    /\ PIDLaneFollower.speed_pid_params c = Some speed_params
    /\ PID.initialized speed = true /\ ~ PID.dt speed == 0
    /\ PID.initialized steer = true /\ ~ PID.dt steer == 0
    /\ ~ PIDParams.dt steer_params == 0
    /\ ~ PIDParams.dt speed_params == 0.

(** The two clipping steps of [solve] on binary64, in the order the code
    applies them: the upper bound if it is set, then the lower one. *)
Definition saturate64 (lo hi : option spec_float) (x : spec_float)
  : spec_float :=
  let x1 :=
    match hi with
    | Some h => B64.np_minimum x h
    | None => x
    end in
  match lo with
  | Some l => B64.np_maximum x1 l
  | None => x1
  end.

(** The rational a finite float stands for. *)
Definition to_Q (a : spec_float) : option Q :=
  match a with
  | S754_zero _ => Some 0
  | S754_finite s m e =>
      Some ((if s then - (1) else 1) * inject_Z (Zpos m) * 2 ^ e)
  | S754_infinity _ => None
  | S754_nan => None
  end.

(** A float that is zero, positive or plus infinity; and one that is
    negative or minus infinity. *)
Definition nonneg64 (a : spec_float) : bool :=
  match a with
  | S754_zero _ => true
  | S754_infinity s => negb s
  | S754_finite s _ _ => negb s
  | S754_nan => false
  end.

Definition neg64 (a : spec_float) : bool :=
  match a with
  | S754_zero _ => false
  | S754_infinity s => s
  | S754_finite s _ _ => s
  | S754_nan => false
  end.

(** ** The design document's vocabulary

    The definitions of this part follow the words of the design document,
    not the code; the theorems compare them with the code. *)

(** "All saturations are inclusive clamps ([min(x,hi)] then
    [max(x,lo)])." *)
Definition spec_clamp (lo hi x : Q) : Q := Qmax (Qmin x hi) lo.

(** "If limits configured, clamp to [[lo, hi]]."  The document knows the
    two bounds of a limit only as a pair; where one of them alone is set,
    that one is taken as the clamp. *)
Definition spec_limit (lo hi : option Q) (x : Q) : Q :=
  match lo, hi with
  | Some l, Some h => spec_clamp l h x
  | None, None => x
  | Some l, None => Qmax x l
  | None, Some h => Qmin x h
  end.

(** Step 1 of [solve]: the override if supplied, else the stored previous
    output, else 0. *)
Definition spec_u_prev (self : PID.t) (override : option Q) : Q :=
  match override with
  | Some given => given
  | None => match PID.u_prev self with Some stored => stored | None => 0 end
  end.

(** Steps 2 to 7 of [solve] without an override, with the division of the
    rationals. *)
Definition spec_solve (self : PID.t) (x : Q) : Q :=
  let u_prev := spec_u_prev self None in
  let e := x - PID.x_ref self in
  let de := (e - PID.e self) / PID.dt self in
  let ei_candidate :=
    spec_clamp (PID.int_e_min self) (PID.int_e_max self)
               (PID.ei self + e * PID.dt self) in
  let u := - (PID.Kp self * e + PID.Ki self * ei_candidate + PID.Kd self * de)
           + PID.u_ref self in
  let du := spec_limit (PID.du_min self) (PID.du_max self) (u - u_prev) in
  let u := u_prev + du in
  spec_limit (PID.u_min self) (PID.u_max self) u.

(** "[solve(x)] returns that [u]". *)
Definition solve_follows_spec (self : PID.t) (x : Q) : Prop :=
  exists u i self',
    PID.solve self x None = Ok (u, i, self') /\ u == spec_solve self x.

Definition is_set {A : Type} (a : option A) : bool :=
  match a with Some _ => true | None => false end.

(** The configurations the document has construction refuse. *)
Definition spec_config_invalid (params : PIDParams.t) : bool :=
  Qle_bool (PIDParams.dt params) 0
  || Qgtb (PIDParams.int_e_min params) (PIDParams.int_e_max params)
  || xorb (is_set (PIDParams.u_min params)) (is_set (PIDParams.u_max params))
  || xorb (is_set (PIDParams.du_min params)) (is_set (PIDParams.du_max params)).


(** "[setReference(r)] followed immediately by [solve] with measurement
    [r] yields an error term of exactly zero and a derivative term of
    exactly zero on that call." *)
Definition no_spike (self : PID.t) (r : Q) (override : option Q) : Prop :=
  exists l,
    PID.solve_locals (PID.set_x_ref self r) r override = Ok l
    /\ PID.e_t l == 0 /\ PID.de_t l == 0.

(** "A supplied override has no effect on any later call that does not
    supply an override": the later call returns what it returns when the
    earlier call is made without one. *)
Definition override_forgotten (self : PID.t) (x1 given x2 : Q) : Prop :=
  exists u u',
    output_after self x1 (Some given) x2 = Ok u
    /\ output_after self x1 None x2 = Ok u'
    /\ u == u'.

(** A call fails with the exception class of the given name. *)
Definition fails_with {A : Type} (cls : string) (r : result A) : Prop :=
  match r with
  | Ok _ => False
  | Raise ex => class_name ex = cls
  end.

(** Two outcomes agree: the same exception, or vectors of equal
    numbers. *)
Definition same_outcome (r1 r2 : result (list Q)) : Prop :=
  match r1, r2 with
  | Ok l1, Ok l2 => Forall2 Qeq l1 l2
  | Raise e1, Raise e2 => e1 = e2
  | _, _ => False
  end.

(** ** Sample objects *)

(** [PIDParams(dt=0)]. *)
Definition params_dt0 : PIDParams.t := PIDParams.set_dt 0 PIDParams.default.

(** [PIDParams(dt=1, Kp=0, Ki=1, int_e_max=0, int_e_min=10)]. *)
Definition params_inverted : PIDParams.t :=
  PIDParams.mk 1 0 1 0 0 10 None None None None 0 0.

(** [PIDParams(du_max=1, du_min=-1)]. *)
Definition params_rate : PIDParams.t :=
  PIDParams.mk (1 # 10) 2 0 0 100 (- (100)) None None
               (Some 1) (Some (- (1))) 0 0.

(** The steering parameters of the notebook, with the slider values. *)
Definition pid_steer_params : PIDParams.t :=
  PIDParams.mk (1 # 10) (65 # 100) (1 # 10) 0 100 (- (100))
               (Some (436 # 1000)) (Some (- (436 # 1000)))
               (Some (45 # 10)) (Some (- (45 # 10))) 0 0.

(** The speed parameters of the notebook, with [reference_speed = 1.0]. *)
Definition pid_speed_params : PIDParams.t :=
  PIDParams.mk (1 # 10) (4 # 10) 0 0 100 (- (100))
               (Some 2) (Some (- (2)))
               (Some 20) (Some (- (20))) 0 1.

(** [PIDParams(x_ref=1)]: a lane offset of one. *)
Definition params_offset : PIDParams.t :=
  PIDParams.mk (1 # 10) 2 0 0 100 (- (100)) None None None None 0 1.

(** A vehicle at rest on the centre line. *)
Definition state_at_rest : VehicleState.t :=
  VehicleState.mk (Some 0)
    (Some (Position.mk 0 0 0))
    (Some (BodyLinearVelocity.mk 0 0 0))
    (Some (ParametricPose.mk 0 0 0 0))
    (Some (VehicleActuation.mk 0 0 0)).

(** The same record without its velocity, and without its pose. *)
Definition state_no_velocity : VehicleState.t :=
  VehicleState.mk (Some 0) (Some (Position.mk 0 0 0)) None
    (Some (ParametricPose.mk 0 0 0 0))
    (Some (VehicleActuation.mk 0 0 0)).

Definition state_no_pose : VehicleState.t :=
  VehicleState.mk (Some 0) (Some (Position.mk 0 0 0))
    (Some (BodyLinearVelocity.mk 0 0 0)) None
    (Some (VehicleActuation.mk 0 0 0)).

(** A stand-in for the two missing default-parameter methods. *)
Definition no_such_method (params : PIDParams.t) : result PIDParams.t :=
  Raise AttributeError.

(** The controller [__init__] builds from given parameters. *)
Definition built (dt : Q) (steer speed : PIDParams.t) : PIDLaneFollower.t :=
  PIDLaneFollower.mk (Some dt)
    (Some (PIDParams.set_dt dt steer)) (Some (PIDParams.set_dt dt speed))
    (Some (PID.set_x_ref (PID.fresh (PIDParams.set_dt dt steer)) 0))
    (Some (PID.fresh (PIDParams.set_dt dt speed)))
    (Some (PIDParams.x_ref steer)) (Some false).


(** The speed parameters of the notebook on binary64: [dt = 0.1],
    [Kp = 0.4], [Ki = Kd = 0], bounds of 2 and 20, [x_ref = 1.0]. *)
Definition pid_speed_params64 : PIDParams64.t :=
  PIDParams64.mk (B64.decimal 1 10) (B64.decimal 4 10) B64.zero B64.zero
    (B64.of_Z 100) (B64.of_Z (-100))
    (Some (B64.of_Z 2)) (Some (B64.of_Z (-2)))
    (Some (B64.of_Z 20)) (Some (B64.of_Z (-20)))
    B64.zero (B64.of_Z 1).

(** [PIDParams(du_max=0.1, du_min=-0.1)] on binary64: the defaults
    [dt = 0.1], [Kp = 2.0] and integral bounds of 100, with a rate bound of
    one tenth. *)
Definition params_rate64 : PIDParams64.t :=
  PIDParams64.mk (B64.decimal 1 10) (B64.of_Z 2) B64.zero B64.zero
    (B64.of_Z 100) (B64.of_Z (-100))
    None None
    (Some (B64.decimal 1 10)) (Some (B64.decimal (-1) 10))
    B64.zero B64.zero.

(** Unfolds [step] down to the attribute reads and the two [solve] calls. *)
Ltac unfold_step :=
  unfold PIDLaneFollower.step, PIDLaneFollower.step_M,
    PIDLaneFollower.speed_pid_solve, PIDLaneFollower.steer_pid_solve,
    PIDLaneFollower.assign_u_a, PIDLaneFollower.assign_u_steer,
    PIDLaneFollower.bindM, PIDLaneFollower.read, PIDLaneFollower.lift,
    PIDLaneFollower.write, PIDLaneFollower.ret, PIDLaneFollower.getattr.

(** * Properties *)

(** ** Numbers *)

Lemma Qgtb_true (a b : Q) : Qgtb a b = true <-> b < a.
Proof.
  unfold Qgtb. rewrite negb_true_iff, <- not_true_iff_false, Qle_bool_iff.
  split; [apply Qnot_le_lt | apply Qlt_not_le].
Qed.

Lemma Qgtb_false (a b : Q) : Qgtb a b = false <-> a <= b.
Proof.
  unfold Qgtb. rewrite negb_false_iff. apply Qle_bool_iff.
Qed.

Lemma Qltb_true (a b : Q) : Qltb a b = true <-> a < b.
Proof. apply Qgtb_true. Qed.

Lemma Qltb_false (a b : Q) : Qltb a b = false <-> b <= a.
Proof. apply Qgtb_false. Qed.

(** Addition commutes on the representation, not only up to [==]. *)
Lemma Qplus_comm_eq (a b : Q) : a + b = b + a.
Proof.
  destruct a as [an ad], b as [bn bd]. unfold Qplus; simpl.
  f_equal; [apply Z.add_comm | apply Pos.mul_comm].
Qed.

Lemma py_div_nonzero (a b : Q) : ~ b == 0 -> py_div a b = Ok (a / b).
Proof.
  intros Hb. unfold py_div.
  destruct (Qeq_bool b 0) eqn:E; [| reflexivity].
  apply Qeq_bool_eq in E. contradiction.
Qed.

Lemma py_div_zero (a b : Q) : b == 0 -> py_div a b = Raise ZeroDivisionError.
Proof.
  intros Hb. unfold py_div. apply Qeq_bool_iff in Hb. now rewrite Hb.
Qed.

Lemma Qmin_cases (a b : Q) :
  (a <= b /\ Qmin a b = a) \/ (b < a /\ Qmin a b = b).
Proof.
  unfold Qmin, GenericMinMax.gmin.
  destruct (a ?= b) eqn:E.
  - left. split; [apply Qeq_alt in E; rewrite E; apply Qle_refl | reflexivity].
  - left. split; [apply Qlt_alt in E; apply Qlt_le_weak, E | reflexivity].
  - right. split; [apply Qgt_alt in E; exact E | reflexivity].
Qed.

Lemma Qmax_cases (a b : Q) :
  (b <= a /\ Qmax a b = a) \/ (a < b /\ Qmax a b = b).
Proof.
  unfold Qmax, GenericMinMax.gmax.
  destruct (a ?= b) eqn:E.
  - left. split; [apply Qeq_alt in E; rewrite E; apply Qle_refl | reflexivity].
  - right. split; [apply Qlt_alt in E; exact E | reflexivity].
  - left. split; [apply Qgt_alt in E; apply Qlt_le_weak, E | reflexivity].
Qed.

(** The anti-windup conditional is the clamp of the design document when
    the interval is not empty. *)
Lemma anti_windup_clamp (lo hi x : Q) :
  lo <= hi ->
  (if Qgtb x hi then hi else if Qltb x lo then lo else x) = spec_clamp lo hi x.
Proof.
  intros Hlh. unfold spec_clamp.
  destruct (Qgtb x hi) eqn:Eh.
  - apply Qgtb_true in Eh.
    destruct (Qmin_cases x hi) as [[H1 _] | [_ ->]]; [lra |].
    destruct (Qmax_cases hi lo) as [[_ ->] | [H2 _]]; [reflexivity | lra].
  - apply Qgtb_false in Eh.
    destruct (Qmin_cases x hi) as [[_ ->] | [H1 _]]; [| lra].
    destruct (Qltb x lo) eqn:El.
    + apply Qltb_true in El.
      destruct (Qmax_cases x lo) as [[H2 _] | [_ ->]]; [lra | reflexivity].
    + apply Qltb_false in El.
      destruct (Qmax_cases x lo) as [[_ ->] | [H2 _]]; [reflexivity | lra].
Qed.


(** ** PID.solve *)

(** What [solve] returns and stores is read off the locals. *)
Lemma solve_of_locals (self : PID.t) (x : Q) (o : option Q) (l : PID.locals) :
  PID.solve_locals self x o = Ok l ->
  PID.solve self x o
  = Ok (PID.u_out l, {| PID.success := true |}, PID.commit self l).
Proof. intros H. unfold PID.solve. now rewrite H. Qed.

Lemma solve_inv (self : PID.t) (x : Q) (o : option Q)
  (r : Q * PID.info * PID.t) :
  PID.solve self x o = Ok r ->
  exists l, PID.solve_locals self x o = Ok l
            /\ r = (PID.u_out l, {| PID.success := true |}, PID.commit self l).
Proof.
  unfold PID.solve. destruct (PID.solve_locals self x o) as [l |]; simpl.
  - intros [= <-]. now exists l.
  - discriminate.
Qed.

Lemma solve_raises_iff (self : PID.t) (x : Q) (o : option Q) (ex : exn) :
  PID.solve self x o = Raise ex <-> PID.solve_locals self x o = Raise ex.
Proof.
  unfold PID.solve. destruct (PID.solve_locals self x o); simpl; split;
    congruence.
Qed.

(** The locals of a call on an initialized instance whose [dt] is not
    zero, spelled out. *)
Lemma solve_locals_eq (self : PID.t) (x : Q) (o : option Q) :
  PID.initialized self = true ->
  ~ PID.dt self == 0 ->
  exists l,
    PID.solve_locals self x o = Ok l
    /\ PID.u_base l = spec_u_prev self o
    /\ PID.e_t l = x - PID.x_ref self
    /\ PID.de_t l = (PID.e_t l - PID.e self) / PID.dt self
    /\ PID.ei_t l
       = (let c := PID.ei self + PID.e_t l * PID.dt self in
          if Qgtb c (PID.int_e_max self) then PID.int_e_max self
          else if Qltb c (PID.int_e_min self) then PID.int_e_min self
          else c)
    /\ PID.u_raw l
       = - (PID.Kp self * PID.e_t l + PID.Ki self * PID.ei_t l
            + PID.Kd self * PID.de_t l) + PID.u_ref self
    /\ PID.du_sat l
       = spec_limit (PID.du_min self) (PID.du_max self)
                    (PID.u_raw l - PID.u_base l)
    /\ PID.u_rate l = PID.du_sat l + PID.u_base l
    /\ PID.u_out l = spec_limit (PID.u_min self) (PID.u_max self) (PID.u_rate l).
Proof.
  intros Hi Hdt. unfold PID.solve_locals. rewrite Hi; simpl.
  rewrite (py_div_nonzero _ _ Hdt); simpl.
  eexists; split; [reflexivity |]; simpl.
  repeat split.
  - unfold spec_u_prev. destruct (PID.u_prev self), o; reflexivity.
  - unfold spec_limit, spec_clamp, PID._saturate_rel_low,
      PID._saturate_rel_high, np_maximum, np_minimum.
    destruct (PID.du_min self), (PID.du_max self); reflexivity.
  - unfold spec_limit, spec_clamp, PID._saturate_abs_low,
      PID._saturate_abs_high, np_maximum, np_minimum.
    destruct (PID.u_min self), (PID.u_max self); reflexivity.
Qed.

(** A call that returns was made on an initialized instance with a [dt]
    other than zero. *)
Lemma solve_locals_ok_inv (self : PID.t) (x : Q) (o : option Q)
  (l : PID.locals) :
  PID.solve_locals self x o = Ok l ->
  PID.initialized self = true /\ ~ PID.dt self == 0.
Proof.
  unfold PID.solve_locals, py_div.
  destruct (PID.initialized self); simpl; [| discriminate].
  destruct (Qeq_bool (PID.dt self) 0) eqn:E; simpl; [discriminate |].
  intros _. split; [reflexivity |].
  intros Hz. apply Qeq_bool_iff in Hz. congruence.
Qed.

(** The flag [initialized] is set by the constructor and no method clears
    it: every instance the code produces carries it. *)
Lemma initialized_kept (params params' : PIDParams.t) (self : PID.t) (x r v : Q)
  (o : option Q) :
  PID.initialized (PID.fresh params) = true
  /\ PID.initialized (after_call self (x, o)) = PID.initialized self
  /\ PID.initialized (PID.set_x_ref self r) = PID.initialized self
  /\ PID.initialized (PID.set_u_ref self v) = PID.initialized self
  /\ PID.initialized (PID.clear_errors self) = PID.initialized self
  /\ PID.initialized (PID.set_params self params') = PID.initialized self.
Proof.
  repeat split. unfold after_call; simpl.
  destruct (PID.solve self x o) as [res |] eqn:E; [| reflexivity].
  apply solve_inv in E as (l & _ & ->). reflexivity.
Qed.

(** With [dt = 0] the division of the derivative raises, whatever the
    measurement. *)
Lemma solve_dt_zero (self : PID.t) (x : Q) (o : option Q) :
  PID.initialized self = true ->
  PID.dt self == 0 ->
  PID.solve self x o = Raise ZeroDivisionError.
Proof.
  intros Hi Hz. apply solve_raises_iff. unfold PID.solve_locals.
  rewrite Hi; simpl. now rewrite (py_div_zero _ _ Hz).
Qed.

(** [solve] changes the loop state only: parameters, references and the
    flag stay. *)
Lemma commit_keeps_config (self : PID.t) (l : PID.locals) :
  PID.dt (PID.commit self l) = PID.dt self
  /\ PID.int_e_min (PID.commit self l) = PID.int_e_min self
  /\ PID.int_e_max (PID.commit self l) = PID.int_e_max self
  /\ PID.initialized (PID.commit self l) = PID.initialized self.
Proof. repeat split. Qed.

(** C1, as amended.  On an initialized core whose [dt] is not zero and
    whose integral bounds are in order, [solve(x)] without override returns
    the command of the design document: the error, its difference quotient,
    the clamped integral candidate, the raw command, the rate limit on the
    change from the previous output, then the absolute limit. *)
Theorem solve_computes_spec (self : PID.t) (x : Q)
  (Hinit : PID.initialized self = true)
  (Hdt : ~ PID.dt self == 0)
  (Hint : PID.int_e_min self <= PID.int_e_max self) :
  solve_follows_spec self x.
Proof.
  destruct (solve_locals_eq self x None Hinit Hdt)
    as (l & Hl & Hb & He & Hde & Hei & Hraw & Hdu & Hrate & Hout).
  exists (PID.u_out l), {| PID.success := true |}, (PID.commit self l).
  split; [apply solve_of_locals, Hl |].
  rewrite Hout, Hrate, Hdu, Hraw, Hei, Hde, He, Hb. cbv zeta.
  rewrite (anti_windup_clamp _ _ _ Hint).
  unfold spec_solve. cbv zeta.
  rewrite (Qplus_comm_eq (spec_limit (PID.du_min self) (PID.du_max self) _) _).
  reflexivity.
Qed.

Lemma solve_computes_spec_witness :
  PID.initialized (PID.fresh pid_steer_params) = true
  /\ ~ PID.dt (PID.fresh pid_steer_params) == 0
  /\ PID.int_e_min (PID.fresh pid_steer_params)
     <= PID.int_e_max (PID.fresh pid_steer_params)
  /\ solve_follows_spec (PID.fresh pid_steer_params) 1.
Proof.
  assert (H1 : PID.initialized (PID.fresh pid_steer_params) = true)
    by reflexivity.
  assert (H2 : ~ PID.dt (PID.fresh pid_steer_params) == 0)
    by (unfold Qeq; simpl; lia).
  assert (H3 : PID.int_e_min (PID.fresh pid_steer_params)
               <= PID.int_e_max (PID.fresh pid_steer_params))
    by (unfold Qle; simpl; lia).
  exact (conj H1 (conj H2 (conj H3
           (solve_computes_spec (PID.fresh pid_steer_params) 1 H1 H2 H3)))).
Defined.

(** C1, as stated, fails on two cores the constructor accepts: with
    [dt = 0] the call raises instead of returning, and with the integral
    bounds out of order ([int_e_min = 10], [int_e_max = 0]) the stored
    candidate is the upper bound where the clamp of the document gives the
    lower one. *)
Lemma solve_not_always_spec :
  ~ solve_follows_spec (PID.fresh params_dt0) 1
  /\ ~ solve_follows_spec (PID.fresh params_inverted) 5.
Proof.
  split; intros (u & i & self' & H & Hu).
  - vm_compute in H. discriminate H.
  - vm_compute in H. injection H as <- _ _. vm_compute in Hu. discriminate Hu.
Qed.





(** The two limits do not commute: on the speed loop of the notebook,
    started from a previous output of [-30], the code returns [-2], while
    the absolute limit followed by the rate limit would give [-10]. *)
Example limits_do_not_commute :
  exists l,
    PID.solve_locals (PID.fresh pid_speed_params) (- (100)) (Some (- (30)))
    = Ok l
    /\ PID.u_out l == - (2)
    /\ spec_clamp (- (20)) 20
         (spec_clamp (- (2)) 2 (PID.u_raw l) - PID.u_base l) + PID.u_base l
       == - (10).
Proof.
  eexists. split; [vm_compute; reflexivity |].
  split; vm_compute; reflexivity.
Qed.

(** C8, as amended.  On an initialized core whose [dt] is not zero,
    [set_x_ref(r)] followed by [solve] with measurement [r] computes an
    error of zero and a difference quotient of zero, whatever the state
    before and the [u_prev] argument. *)
Theorem set_x_ref_then_solve_no_spike (self : PID.t) (r : Q) (o : option Q)
  (Hinit : PID.initialized self = true)
  (Hdt : ~ PID.dt self == 0) :
  no_spike self r o.
Proof.
  assert (Hinit' : PID.initialized (PID.set_x_ref self r) = true)
    by exact Hinit.
  assert (Hdt' : ~ PID.dt (PID.set_x_ref self r) == 0) by exact Hdt.
  destruct (solve_locals_eq (PID.set_x_ref self r) r o Hinit' Hdt')
    as (l & Hl & _ & He & Hde & _).
  exists l. split; [exact Hl |].
  simpl in He, Hde.
  assert (E0 : PID.e_t l == 0) by (rewrite He; ring).
  split; [exact E0 |].
  rewrite Hde, E0. field. exact Hdt.
Qed.

Lemma set_x_ref_then_solve_no_spike_witness :
  PID.initialized (PID.fresh pid_speed_params) = true
  /\ ~ PID.dt (PID.fresh pid_speed_params) == 0
  /\ no_spike (PID.fresh pid_speed_params) (7 # 2) None.
Proof.
  assert (H1 : PID.initialized (PID.fresh pid_speed_params) = true)
    by reflexivity.
  assert (H2 : ~ PID.dt (PID.fresh pid_speed_params) == 0)
    by (unfold Qeq; simpl; lia).
  exact (conj H1 (conj H2
           (set_x_ref_then_solve_no_spike _ (7 # 2) None H1 H2))).
Defined.

(** C8, as stated, fails on the core built from [PIDParams(dt=0)]: the
    call raises [ZeroDivisionError] at the difference quotient and yields
    no derivative term. *)
Lemma no_spike_fails_at_dt_zero :
  PID.init params_dt0 = Ok (PID.fresh params_dt0)
  /\ PID.solve (PID.set_x_ref (PID.fresh params_dt0) 1) 1 None
     = Raise ZeroDivisionError
  /\ ~ no_spike (PID.fresh params_dt0) 1 None.
Proof.
  split; [reflexivity |]. split; [vm_compute; reflexivity |].
  intros (l & H & _). vm_compute in H. discriminate H.
Qed.

(** C10, as amended.  When [solve] returns, the stored [u_prev] is the
    output it returned.  The [u_prev] argument is not stored, and it reaches
    a later call through that stored output alone: two calls on the same
    instance and measurement that differ in the argument leave instances
    that differ in the stored output and in nothing else. *)
Theorem solve_stores_output (self : PID.t) (x : Q) (o : option Q)
  (r : Q * PID.info * PID.t)
  (Hsolve : PID.solve self x o = Ok r) :
  PID.u_prev (snd r) = Some (fst (fst r))
  /\ forall (o' : option Q) (r' : Q * PID.info * PID.t),
       PID.solve self x o' = Ok r' ->
       snd r' = with_u_prev (Some (fst (fst r'))) (snd r).
Proof.
  apply solve_inv in Hsolve as (l & Hl & ->).
  split; [reflexivity |].
  intros o' r' Hsolve'. apply solve_inv in Hsolve' as (l' & Hl' & ->).
  destruct (solve_locals_ok_inv _ _ _ _ Hl) as [Hi Hdt].
  destruct (solve_locals_eq self x o Hi Hdt)
    as (m & Hm & _ & He & Hde & Hei & _).
  destruct (solve_locals_eq self x o' Hi Hdt)
    as (m' & Hm' & _ & He' & Hde' & Hei' & _).
  rewrite Hl in Hm. injection Hm as <-.
  rewrite Hl' in Hm'. injection Hm' as <-.
  assert (Ee : PID.e_t l' = PID.e_t l) by congruence.
  assert (Ede : PID.de_t l' = PID.de_t l)
    by (rewrite Hde, Hde', Ee; reflexivity).
  assert (Eei : PID.ei_t l' = PID.ei_t l)
    by (rewrite Hei, Hei', Ee; reflexivity).
  simpl. unfold PID.commit, with_u_prev; simpl.
  now rewrite Ee, Ede, Eei.
Qed.

Lemma solve_stores_output_witness :
  exists r,
    PID.solve (PID.fresh pid_steer_params) 1 (Some 3) = Ok r
    /\ PID.u_prev (snd r) = Some (fst (fst r)).
Proof.
  eexists. split; [vm_compute; reflexivity |].
  refine (proj1 (solve_stores_output (PID.fresh pid_steer_params) 1 (Some 3)
                   _ _)).
  vm_compute; reflexivity.
Defined.

(** C10, as stated, fails on a core with rate bounds of one: after a call
    with [u_prev = 5] the next call, made without the argument, returns 7,
    and after the same call made without it the next call returns 2. *)
Lemma override_reaches_later_call :
  output_after (PID.fresh params_rate) (- (5)) (Some 5) (- (5)) = Ok 7
  /\ output_after (PID.fresh params_rate) (- (5)) None (- (5)) = Ok 2
  /\ ~ override_forgotten (PID.fresh params_rate) (- (5)) 5 (- (5)).
Proof.
  split; [vm_compute; reflexivity |]. split; [vm_compute; reflexivity |].
  intros (u & u' & H & H' & E).
  vm_compute in H. injection H as <-.
  vm_compute in H'. injection H' as <-.
  vm_compute in E. discriminate E.
Qed.

(** ** PID.solve on binary64 *)

Lemma leb64_refl (a : spec_float) :
  B64.is_nan a = false -> B64.leb a a = true.
Proof.
  unfold B64.leb, SFleb.
  destruct a as [s | s | | s m e]; simpl; try discriminate; intros _.
  - reflexivity.
  - destruct s; reflexivity.
  - destruct s; rewrite Z.compare_refl, Pos.compare_cont_refl; reflexivity.
Qed.

Lemma leb64_not_nan (a b : spec_float) :
  B64.leb a b = true -> B64.is_nan a = false /\ B64.is_nan b = false.
Proof.
  unfold B64.leb, SFleb.
  destruct a, b; simpl; try discriminate; now split.
Qed.

Lemma abs64_not_nan (a : spec_float) :
  B64.is_nan (B64.abs a) = B64.is_nan a.
Proof. destruct a; reflexivity. Qed.

(** Below a bound and not negative: the absolute values are in the same
    order. *)
Lemma abs64_le_upper (a hi : spec_float) :
  nonneg64 a = true -> B64.leb a hi = true ->
  B64.leb (B64.abs a) (B64.abs hi) = true.
Proof.
  unfold B64.leb, SFleb, B64.abs.
  destruct a as [sa | sa | | sa ma ea], hi as [sh | sh | | sh mh eh];
    simpl; try discriminate; try reflexivity;
    try (destruct sa; simpl; try discriminate);
    try (destruct sh; simpl; try discriminate);
    try reflexivity; intros _ H; exact H.
Qed.

(** Above a bound and negative: the absolute values are in the opposite
    order. *)
Lemma abs64_le_lower (a lo : spec_float) :
  neg64 a = true -> B64.leb lo a = true ->
  B64.leb (B64.abs a) (B64.abs lo) = true.
Proof.
  unfold B64.leb, SFleb, B64.abs.
  destruct a as [sa | sa | | sa ma ea], lo as [sl | sl | | sl ml el];
    simpl; try discriminate;
    try (destruct sa; simpl; try discriminate);
    try (destruct sl; simpl; try discriminate);
    try reflexivity.
  intros _.
  rewrite (Z.compare_antisym el ea).
  rewrite (Pos.compare_cont_antisym ml ma Eq). simpl.
  destruct (el ?= ea)%Z; simpl; try discriminate; try reflexivity.
  intros H; exact H.
Qed.

(** A float between two bounds is no larger in absolute value than one of
    them. *)
Lemma abs64_between (a lo hi : spec_float) :
  B64.leb lo a = true -> B64.leb a hi = true ->
  B64.leb (B64.abs a) (B64.abs hi) = true
  \/ B64.leb (B64.abs a) (B64.abs lo) = true.
Proof.
  intros Hlo Hhi.
  destruct (nonneg64 a) eqn:Hs.
  - left. apply abs64_le_upper; assumption.
  - right. apply abs64_le_lower; [| exact Hlo].
    destruct (leb64_not_nan _ _ Hhi) as [Ha _].
    destruct a as [s | s | | s m e]; simpl in *; try discriminate;
      destruct s; simpl in *; try discriminate; reflexivity.
Qed.

(** What the limits of a call on binary64 are applied to. *)
Lemma solve_locals64_inv (self : PID64.t) (x : spec_float)
  (o : option spec_float) (l : PID64.locals) :
  PID64.solve_locals self x o = Ok l ->
  PID64.u_base l
  = match o with
    | Some given => given
    | None => match PID64.u_prev self with
              | Some stored => stored
              | None => B64.zero
              end
    end
  /\ PID64.du_sat l
     = saturate64 (PID64.du_min self) (PID64.du_max self)
         (B64.sub (PID64.u_raw l) (PID64.u_base l))
  /\ PID64.u_rate l = B64.add (PID64.du_sat l) (PID64.u_base l)
  /\ PID64.u_out l
     = saturate64 (PID64.u_min self) (PID64.u_max self) (PID64.u_rate l).
Proof.
  unfold PID64.solve_locals.
  destruct (PID64.initialized self); simpl; [| discriminate].
  destruct (B64.py_div _ _) as [d |]; simpl; [| discriminate].
  intros [= <-]; simpl.
  split; [destruct (PID64.u_prev self), o; reflexivity |].
  split.
  { unfold saturate64, PID64._saturate_rel_low, PID64._saturate_rel_high.
    destruct (PID64.du_min self), (PID64.du_max self); reflexivity. }
  split; [reflexivity |].
  unfold saturate64, PID64._saturate_abs_low, PID64._saturate_abs_high.
  destruct (PID64.u_min self), (PID64.u_max self); reflexivity.
Qed.

Lemma solve64_of_locals (self : PID64.t) (x : spec_float)
  (o : option spec_float) (l : PID64.locals) :
  PID64.solve_locals self x o = Ok l ->
  PID64.solve self x o
  = Ok (PID64.u_out l, {| PID.success := true |}, PID64.commit self l).
Proof. intros H. unfold PID64.solve. now rewrite H. Qed.

(** Both bounds set and in order: what the two clipping steps return is
    between the bounds when their argument is a number, and NaN when it is
    NaN. *)
Lemma saturate64_within (lo hi x : spec_float) :
  B64.leb lo hi = true ->
  (B64.is_nan x = false ->
   B64.leb lo (saturate64 (Some lo) (Some hi) x) = true
   /\ B64.leb (saturate64 (Some lo) (Some hi) x) hi = true)
  /\ (B64.is_nan x = true ->
      B64.is_nan (saturate64 (Some lo) (Some hi) x) = true).
Proof.
  intros Hord. destruct (leb64_not_nan _ _ Hord) as [Nlo Nhi].
  unfold saturate64, B64.np_minimum, B64.np_maximum. split.
  - intros Nx. rewrite Nx, orb_false_r.
    destruct (B64.leb x hi) eqn:E1.
    + rewrite Nx, orb_false_r.
      destruct (B64.leb lo x) eqn:E2;
        [now split | split; [apply leb64_refl, Nlo | exact Hord]].
    + rewrite Nhi, orb_false_r, Hord.
      split; [exact Hord | apply leb64_refl, Nhi].
  - intros Nx. rewrite Nx, orb_true_r. now rewrite Nx, orb_true_r.
Qed.

(** C6, as amended, on binary64.  On a core with both absolute bounds set
    and in order, the output [solve] returns lies between them whenever the
    command it holds before the absolute saturation is a number; when that
    command is NaN, the output is NaN. *)
Theorem output_within_abs_bounds_unless_nan (self : PID64.t)
  (x : spec_float) (o : option spec_float) (lo hi : spec_float)
  (l : PID64.locals)
  (Hlo : PID64.u_min self = Some lo)
  (Hhi : PID64.u_max self = Some hi)
  (Horder : B64.leb lo hi = true)
  (Hsolve : PID64.solve_locals self x o = Ok l) :
  PID64.solve self x o
  = Ok (PID64.u_out l, {| PID.success := true |}, PID64.commit self l)
  /\ (B64.is_nan (PID64.u_rate l) = false ->
      B64.leb lo (PID64.u_out l) = true /\ B64.leb (PID64.u_out l) hi = true)
  /\ (B64.is_nan (PID64.u_rate l) = true ->
      B64.is_nan (PID64.u_out l) = true).
Proof.
  split; [apply solve64_of_locals, Hsolve |].
  destruct (solve_locals64_inv _ _ _ _ Hsolve) as (_ & _ & _ & Hout).
  rewrite Hout, Hlo, Hhi. apply saturate64_within, Horder.
Qed.

Lemma output_within_abs_bounds_unless_nan_witness :
  exists l,
    PID64.u_min (PID64.fresh pid_speed_params64) = Some (B64.of_Z (-2))
    /\ PID64.u_max (PID64.fresh pid_speed_params64) = Some (B64.of_Z 2)
    /\ B64.leb (B64.of_Z (-2)) (B64.of_Z 2) = true
    /\ PID64.solve_locals (PID64.fresh pid_speed_params64) (B64.of_Z 100) None
       = Ok l
    /\ B64.is_nan (PID64.u_rate l) = false
    /\ B64.leb (B64.of_Z (-2)) (PID64.u_out l) = true
    /\ B64.leb (PID64.u_out l) (B64.of_Z 2) = true.
Proof.
  eexists.
  assert (H3 : B64.leb (B64.of_Z (-2)) (B64.of_Z 2) = true)
    by (vm_compute; reflexivity).
  assert (H4 : PID64.solve_locals (PID64.fresh pid_speed_params64)
                 (B64.of_Z 100) None = Ok _)
    by (vm_compute; reflexivity).
  match type of H4 with
  | _ = Ok ?l =>
      assert (H5 : B64.is_nan (PID64.u_rate l) = false) by reflexivity
  end.
  split; [reflexivity |]. split; [reflexivity |]. split; [exact H3 |].
  split; [exact H4 |]. split; [exact H5 |].
  exact (proj1 (proj2 (output_within_abs_bounds_unless_nan
                  (PID64.fresh pid_speed_params64) (B64.of_Z 100) None
                  (B64.of_Z (-2)) (B64.of_Z 2) _ eq_refl eq_refl H3 H4))
           H5).
Defined.

(** C6, as stated, fails on the speed loop of the notebook: at the
    measurement [-1e308] the difference quotient overflows to minus
    infinity, its product with the gain [Kd = 0] is NaN, and the output the
    first [solve] call returns is NaN, which is not between [-2] and [2]. *)
Lemma output_nan_on_overflow :
  exists l,
    B64.of_Z (- 10 ^ 308) = S754_finite true 5010420900022432 971
    /\ PID64.solve_locals (PID64.fresh pid_speed_params64)
                          (B64.of_Z (- 10 ^ 308)) None
       = Ok l
    /\ PID64.de_t l = S754_infinity true
    /\ PID64.u_out l = S754_nan
    /\ B64.leb (B64.of_Z (-2)) (PID64.u_out l) = false
    /\ B64.leb (PID64.u_out l) (B64.of_Z 2) = false
    /\ PID64.solve (PID64.fresh pid_speed_params64)
                   (B64.of_Z (- 10 ^ 308)) None
       = Ok (S754_nan, {| PID.success := true |},
             PID64.commit (PID64.fresh pid_speed_params64) l).
Proof.
  eexists. split; [vm_compute; reflexivity |].
  split; [vm_compute; reflexivity |].
  repeat split; vm_compute; reflexivity.
Qed.

(** Both rate bounds set: what the two clipping steps return is, when it
    is a number, no larger in absolute value than one of the bounds,
    whatever the order of the bounds. *)
Lemma saturate64_abs (lo hi d : spec_float) :
  B64.is_nan (saturate64 (Some lo) (Some hi) d) = false ->
  B64.leb (B64.abs (saturate64 (Some lo) (Some hi) d)) (B64.abs hi) = true
  \/ B64.leb (B64.abs (saturate64 (Some lo) (Some hi) d)) (B64.abs lo) = true.
Proof.
  unfold saturate64, B64.np_minimum, B64.np_maximum.
  destruct (B64.leb d hi) eqn:E1; simpl.
  - destruct (leb64_not_nan _ _ E1) as [Nd _].
    rewrite Nd, orb_false_r.
    destruct (B64.leb lo d) eqn:E2.
    + intros _. apply abs64_between; assumption.
    + intros Nlo. right. apply leb64_refl. now rewrite abs64_not_nan.
  - destruct (B64.is_nan d) eqn:Nd; simpl.
    + rewrite Nd, orb_true_r. rewrite Nd. discriminate.
    + destruct (B64.leb lo hi) eqn:E2; simpl.
      * intros Nhi. left. apply leb64_refl. now rewrite abs64_not_nan.
      * destruct (B64.is_nan hi) eqn:Nhi; simpl.
        -- rewrite Nhi. discriminate.
        -- intros Nlo. right. apply leb64_refl. now rewrite abs64_not_nan.
Qed.

(** C7, as amended, on binary64.  On a core with both rate bounds set, the
    change [solve] adds to the resolved previous output is the clipped raw
    change and, when it is a number, no larger in absolute value than one
    of the two bounds; the command after the rate limit is the rounded sum
    of that change and the previous output, and the returned output is the
    absolute saturation of that command: the rate limit comes first. *)
Theorem rate_limited_change_bounded (self : PID64.t) (x : spec_float)
  (o : option spec_float) (lo hi : spec_float) (l : PID64.locals)
  (Hlo : PID64.du_min self = Some lo)
  (Hhi : PID64.du_max self = Some hi)
  (Hsolve : PID64.solve_locals self x o = Ok l) :
  PID64.u_base l
  = match o with
    | Some given => given
    | None => match PID64.u_prev self with
              | Some stored => stored
              | None => B64.zero
              end
    end
  /\ PID64.du_sat l
     = saturate64 (Some lo) (Some hi)
         (B64.sub (PID64.u_raw l) (PID64.u_base l))
  /\ (B64.is_nan (PID64.du_sat l) = false ->
      B64.leb (B64.abs (PID64.du_sat l)) (B64.abs hi) = true
      \/ B64.leb (B64.abs (PID64.du_sat l)) (B64.abs lo) = true)
  /\ PID64.u_rate l = B64.add (PID64.du_sat l) (PID64.u_base l)
  /\ PID64.u_out l
     = saturate64 (PID64.u_min self) (PID64.u_max self) (PID64.u_rate l)
  /\ PID64.solve self x o
     = Ok (PID64.u_out l, {| PID.success := true |}, PID64.commit self l).
Proof.
  destruct (solve_locals64_inv _ _ _ _ Hsolve) as (Hb & Hdu & Hrate & Hout).
  rewrite Hlo, Hhi in Hdu.
  split; [exact Hb |]. split; [exact Hdu |].
  split; [rewrite Hdu; apply saturate64_abs |].
  split; [exact Hrate |]. split; [exact Hout |].
  apply solve64_of_locals, Hsolve.
Qed.

Lemma rate_limited_change_bounded_witness :
  exists l,
    PID64.du_min (PID64.fresh pid_speed_params64) = Some (B64.of_Z (-20))
    /\ PID64.du_max (PID64.fresh pid_speed_params64) = Some (B64.of_Z 20)
    /\ PID64.solve_locals (PID64.fresh pid_speed_params64) (B64.of_Z 100)
         (Some (B64.of_Z 3))
       = Ok l
    /\ B64.is_nan (PID64.du_sat l) = false
    /\ (B64.leb (B64.abs (PID64.du_sat l)) (B64.abs (B64.of_Z 20)) = true
        \/ B64.leb (B64.abs (PID64.du_sat l)) (B64.abs (B64.of_Z (-20)))
           = true).
Proof.
  eexists.
  assert (H3 : PID64.solve_locals (PID64.fresh pid_speed_params64)
                 (B64.of_Z 100) (Some (B64.of_Z 3)) = Ok _)
    by (vm_compute; reflexivity).
  match type of H3 with
  | _ = Ok ?l =>
      assert (H4 : B64.is_nan (PID64.du_sat l) = false) by reflexivity
  end.
  split; [reflexivity |]. split; [reflexivity |].
  split; [exact H3 |]. split; [exact H4 |].
  exact (proj1 (proj2 (proj2 (rate_limited_change_bounded
                  (PID64.fresh pid_speed_params64) (B64.of_Z 100)
                  (Some (B64.of_Z 3)) (B64.of_Z (-20)) (B64.of_Z 20) _
                  eq_refl eq_refl H3)))
           H4).
Defined.

(** C7, as stated, fails on a core with rate bounds of one tenth: on the
    third of three calls with the measurement [-5.0] the change added is
    the bound [0.1] and the previous output is [0.2], but their rounded sum
    is [0.30000000000000004], which differs from the previous output by
    more than the bound. *)
Lemma rate_bound_exceeded_by_rounding :
  exists l sum_ prev bound,
    last_locals64 (PID64.fresh params_rate64) (B64.of_Z (-5))
                  [B64.of_Z (-5); B64.of_Z (-5)]
    = Ok l
    /\ PID64.du_sat l = B64.decimal 1 10
    /\ PID64.u_base l = B64.decimal 2 10
    /\ PID64.u_rate l = S754_finite false 5404319552844596 (-54)
    /\ to_Q (PID64.u_rate l) = Some sum_
    /\ to_Q (PID64.u_base l) = Some prev
    /\ to_Q (B64.decimal 1 10) = Some bound
    /\ bound < sum_ - prev
    /\ B64.leb (B64.abs (B64.sub (PID64.u_rate l) (PID64.u_base l)))
               (B64.decimal 1 10)
       = false.
Proof.
  do 4 eexists. split; [vm_compute; reflexivity |].
  repeat (split; [vm_compute; reflexivity |]).
  vm_compute; reflexivity.
Qed.

(** ** Construction *)

Lemma solve_all_returns (self : PID.t) (calls : list (Q * option Q)) :
  PID.initialized self = true ->
  ~ PID.dt self == 0 ->
  returns (solve_all self calls).
Proof.
  revert self.
  induction calls as [| call rest IH]; intros self Hi Hdt; simpl.
  - exact I.
  - destruct (solve_locals_eq self (fst call) (snd call) Hi Hdt)
      as (l & Hl & _).
    rewrite (solve_of_locals _ _ _ _ Hl). simpl.
    specialize (IH (PID.commit self l) Hi Hdt).
    destruct (solve_all (PID.commit self l) rest); [exact I | exact IH].
Qed.

Lemma valid_config_dt_nonzero (params : PIDParams.t) :
  spec_config_invalid params = false -> ~ PIDParams.dt params == 0.
Proof.
  unfold spec_config_invalid. intros H Hz.
  repeat (apply orb_false_iff in H as [H _]).
  apply not_true_iff_false in H. apply H, Qle_bool_iff.
  rewrite Hz. apply Qle_refl.
Qed.

(** C3, as amended.  Constructing a PID core never fails, whatever the
    configuration: the constructor checks nothing.  Under a configuration
    the design document calls valid, every [solve] call of any finite
    sequence returns; it raises nothing. *)
Theorem construction_never_fails (params : PIDParams.t)
  (calls : list (Q * option Q)) :
  PID.init params = Ok (PID.fresh params)
  /\ (spec_config_invalid params = false ->
      returns (self <- PID.init params ;; solve_all self calls)).
Proof.
  split; [reflexivity |].
  intros Hvalid. simpl.
  apply solve_all_returns; [reflexivity |].
  apply valid_config_dt_nonzero, Hvalid.
Qed.

Lemma construction_never_fails_witness :
  spec_config_invalid pid_steer_params = false
  /\ returns (self <- PID.init pid_steer_params ;;
              solve_all self [(1, None); (1, None); (1, Some 0)]).
Proof.
  assert (H : spec_config_invalid pid_steer_params = false)
    by (vm_compute; reflexivity).
  exact (conj H (proj2 (construction_never_fails pid_steer_params _) H)).
Defined.

(** C3, as stated, fails: [PIDParams(dt=0)] and a configuration with the
    integral bounds out of order are invalid for the design document, and
    the constructor returns an instance for both. *)
Lemma construction_accepts_invalid :
  spec_config_invalid params_dt0 = true
  /\ PID.init params_dt0 = Ok (PID.fresh params_dt0)
  /\ spec_config_invalid params_inverted = true
  /\ PID.init params_inverted = Ok (PID.fresh params_inverted)
  /\ ~ (forall params,
          fails_with "ConfigurationError" (PID.init params)
          <-> spec_config_invalid params = true).
Proof.
  repeat (split; [vm_compute; reflexivity |]).
  intros H. destruct (H params_dt0) as [_ H2].
  apply H2. vm_compute; reflexivity.
Qed.

(** ** PIDLaneFollower *)

(** With parameters given, the constructor returns [built], whatever the
    two default-parameter methods would do. *)
Lemma init_built (h1 h2 : PIDParams.t -> result PIDParams.t) (dt : Q)
  (steer speed : PIDParams.t) :
  PIDLaneFollower.init h1 h2 dt (Some steer) (Some speed)
  = Ok (built dt steer speed).
Proof. reflexivity. Qed.

(** Every controller the constructor returns is a [built] one. *)
Lemma init_inv (h1 h2 : PIDParams.t -> result PIDParams.t) (dt : Q)
  (steer speed : option PIDParams.t) (c : PIDLaneFollower.t) :
  PIDLaneFollower.init h1 h2 dt steer speed = Ok c ->
  exists steer' speed', c = built dt steer' speed'.
Proof.
  unfold PIDLaneFollower.init. intros H.
  destruct (match steer with
            | Some given => Ok given
            | None => h1 (PIDParams.set_dt dt PIDParams.default)
            end) as [steer' |]; simpl in H; [| discriminate].
  destruct (match speed with
            | Some given => Ok given
            | None => h2 (PIDParams.set_dt dt PIDParams.default)
            end) as [speed' |]; simpl in H; [| discriminate].
  injection H as <-. now exists steer', speed'.
Qed.

(** A [step] on which both loops return, run to its end. *)
Lemma step_run (self : PIDLaneFollower.t) (vs : VehicleState.t)
  (speed steer : PID.t) (lat : Q)
  (vel : BodyLinearVelocity.t) (pose : ParametricPose.t)
  (act : VehicleActuation.t)
  (a s : Q) (ia isteer : PID.info) (speed' steer' : PID.t) :
  PIDLaneFollower.speed_pid self = Some speed ->
  PIDLaneFollower.steer_pid self = Some steer ->
  PIDLaneFollower.lat_ref self = Some lat ->
  VehicleState.v vs = Some vel ->
  VehicleState.p vs = Some pose ->
  VehicleState.u vs = Some act ->
  PID.solve speed (BodyLinearVelocity.v_long vel) None = Ok (a, ia, speed') ->
  PID.solve steer
    (5 * (ParametricPose.x_tran pose - lat) + 1 * ParametricPose.e_psi pose)
    None
  = Ok (s, isteer, steer') ->
  PIDLaneFollower.step self vs
  = (Ok [a; s],
     PIDLaneFollower.mk_world
       (PIDLaneFollower.set_steer_pid steer'
          (PIDLaneFollower.set_speed_pid speed' self))
       (VehicleState.set_u
          (VehicleActuation.mk (VehicleActuation.t_ act) a s) vs)).
Proof.
  intros Hspeed Hsteer Hlat Hv Hp Hu Ha Hs.
  destruct self, vs; simpl in *; subst.
  unfold_step; simpl.
  rewrite Ha; simpl. rewrite Hs; simpl. reflexivity.
Qed.

(** C2.  On a state record with its velocity, pose and actuation in place,
    [step] sets the acceleration command to what the speed loop's [solve]
    returns on the longitudinal velocity, the steering command to what
    the steering loop's [solve] returns on
    [5 * (x_tran - lat_ref) + 1 * e_psi], writes both into the actuation of
    the caller's record, leaving the rest of the record as it was, and
    returns the vector of the two in that order; each loop is left in the
    state its [solve] produced. *)
Theorem step_commands (self : PIDLaneFollower.t) (vs : VehicleState.t)
  (speed steer : PID.t) (lat : Q)
  (vel : BodyLinearVelocity.t) (pose : ParametricPose.t)
  (act : VehicleActuation.t)
  (a s : Q) (ia isteer : PID.info) (speed' steer' : PID.t)
  (Hspeed : PIDLaneFollower.speed_pid self = Some speed)
  (Hsteer : PIDLaneFollower.steer_pid self = Some steer)
  (Hlat : PIDLaneFollower.lat_ref self = Some lat)
  (Hv : VehicleState.v vs = Some vel)
  (Hp : VehicleState.p vs = Some pose)
  (Hu : VehicleState.u vs = Some act)
  (Ha : PID.solve speed (BodyLinearVelocity.v_long vel) None
        = Ok (a, ia, speed'))
  (Hs : PID.solve steer
          (5 * (ParametricPose.x_tran pose - lat)
           + 1 * ParametricPose.e_psi pose) None
        = Ok (s, isteer, steer')) :
  fst (PIDLaneFollower.step self vs) = Ok [a; s]
  /\ PIDLaneFollower.vehicle_state (snd (PIDLaneFollower.step self vs))
     = VehicleState.mk (VehicleState.t_ vs) (VehicleState.x vs)
         (VehicleState.v vs) (VehicleState.p vs)
         (Some (VehicleActuation.mk (VehicleActuation.t_ act) a s))
  /\ PIDLaneFollower.speed_pid
       (PIDLaneFollower.self_ (snd (PIDLaneFollower.step self vs)))
     = Some speed'
  /\ PIDLaneFollower.steer_pid
       (PIDLaneFollower.self_ (snd (PIDLaneFollower.step self vs)))
     = Some steer'.
Proof.
  rewrite (step_run self vs speed steer lat vel pose act a s ia isteer
             speed' steer' Hspeed Hsteer Hlat Hv Hp Hu Ha Hs).
  repeat split.
Qed.

Lemma step_commands_witness :
  exists a s,
    fst (PIDLaneFollower.step
           (built (1 # 10) pid_steer_params pid_speed_params) state_at_rest)
    = Ok [a; s]
    /\ 0 < a /\ s == 0.
Proof.
  do 2 eexists. split.
  - eapply (step_commands
              (built (1 # 10) pid_steer_params pid_speed_params)
              state_at_rest);
      try reflexivity; vm_compute; reflexivity.
  - split; vm_compute; reflexivity.
Defined.

(** On a controller built with a [dt] other than zero, [step] returns for
    every state record that has its velocity, pose and actuation. *)
Lemma step_returns (dt : Q) (steer speed : PIDParams.t) (vs : VehicleState.t)
  (vel : BodyLinearVelocity.t) (pose : ParametricPose.t)
  (act : VehicleActuation.t) :
  ~ dt == 0 ->
  VehicleState.v vs = Some vel ->
  VehicleState.p vs = Some pose ->
  VehicleState.u vs = Some act ->
  returns (fst (PIDLaneFollower.step (built dt steer speed) vs)).
Proof.
  intros Hdt Hv Hp Hu.
  destruct (solve_locals_eq (PID.fresh (PIDParams.set_dt dt speed))
              (BodyLinearVelocity.v_long vel) None eq_refl Hdt)
    as (l1 & Hl1 & _).
  destruct (solve_locals_eq
              (PID.set_x_ref (PID.fresh (PIDParams.set_dt dt steer)) 0)
              (5 * (ParametricPose.x_tran pose - PIDParams.x_ref steer)
               + 1 * ParametricPose.e_psi pose) None eq_refl Hdt)
    as (l2 & Hl2 & _).
  rewrite (step_run (built dt steer speed) vs _ _ _ vel pose act
             _ _ _ _ _ _ eq_refl eq_refl eq_refl Hv Hp Hu
             (solve_of_locals _ _ _ _ Hl1) (solve_of_locals _ _ _ _ Hl2)).
  exact I.
Qed.

(** When the lane offset of the steering parameters is the number [0],
    [reset()] gives back the controller as it was built, and a [step]
    after it is the [step] of a new controller. *)
Lemma reset_step_same_when_centered (dt : Q) (steer speed : PIDParams.t)
  (vs : VehicleState.t) :
  PIDParams.x_ref steer = 0 ->
  step_after_reset (built dt steer speed) vs
  = Ok (fst (PIDLaneFollower.step (built dt steer speed) vs)).
Proof.
  intros Hx. unfold step_after_reset.
  assert (E : PIDLaneFollower.reset (built dt steer speed)
              = Ok (built dt steer speed)).
  { unfold PIDLaneFollower.reset, built; simpl.
    unfold PIDLaneFollower.set_speed_pid, PIDLaneFollower.set_steer_pid;
      simpl.
    unfold PID.set_x_ref, PID.fresh; simpl. rewrite Hx. reflexivity. }
  rewrite E. reflexivity.
Qed.

(** C4.  With a lane offset of one, [step] on a newly built controller and
    [step] after [reset()] return different steering commands for the
    vehicle at rest on the centre line: [reset] rebuilds the steering loop
    with the offset as its reference, where the constructor sets that
    reference to zero. *)
Theorem reset_step_differs_from_fresh :
  exists fresh_out reset_out,
    PIDLaneFollower.init no_such_method no_such_method (1 # 10)
      (Some params_offset) (Some PIDParams.default)
    = Ok (built (1 # 10) params_offset PIDParams.default)
    /\ fst (PIDLaneFollower.step
              (built (1 # 10) params_offset PIDParams.default) state_at_rest)
       = Ok fresh_out
    /\ step_after_reset (built (1 # 10) params_offset PIDParams.default)
                        state_at_rest
       = Ok (Ok reset_out)
    /\ Forall2 Qeq fresh_out [0; 10]
    /\ Forall2 Qeq reset_out [0; 12]
    /\ ~ same_outcome (Ok fresh_out) (Ok reset_out).
Proof.
  do 2 eexists.
  split; [reflexivity |].
  split; [vm_compute; reflexivity |].
  split; [vm_compute; reflexivity |].
  split; [repeat constructor |].
  split; [repeat constructor |].
  intros H. simpl in H.
  inversion H as [| ? ? ? ? _ Htl]; subst.
  inversion Htl as [| ? ? ? ? Hhd _]; subst.
  vm_compute in Hhd. discriminate Hhd.
Qed.


(** A [step] that returns found every attribute it reads. *)
Lemma step_returns_inv (self : PIDLaneFollower.t) (vs : VehicleState.t)
  (out : list Q) :
  fst (PIDLaneFollower.step self vs) = Ok out ->
  VehicleState.v vs <> None /\ VehicleState.p vs <> None
  /\ VehicleState.u vs <> None
  /\ PIDLaneFollower.speed_pid self <> None
  /\ PIDLaneFollower.steer_pid self <> None
  /\ PIDLaneFollower.lat_ref self <> None.
Proof.
  destruct self as [d sp1 sp2 steer speed lat req], vs as [t x v p u].
  unfold_step; simpl.
  destruct v as [vel |]; simpl; [| discriminate].
  destruct speed as [speed |]; simpl; [| discriminate].
  destruct (PID.solve speed _ None) as [[[a ia] speed'] |]; simpl;
    [| discriminate].
  destruct u as [act |]; simpl; [| discriminate].
  destruct steer as [steer |]; simpl; [| discriminate].
  destruct p as [pose |]; simpl; [| discriminate].
  destruct lat as [lat |]; simpl; [| discriminate].
  intros _. repeat split; discriminate.
Qed.

(** An exception out of [step] is an [AttributeError], or comes out of the
    [solve] of one of the two loops. *)
Lemma step_raise_inv (self : PIDLaneFollower.t) (vs : VehicleState.t)
  (ex : exn) :
  fst (PIDLaneFollower.step self vs) = Raise ex ->
  ex = AttributeError
  \/ (exists speed x, PIDLaneFollower.speed_pid self = Some speed
                      /\ PID.solve speed x None = Raise ex)
  \/ (exists steer x, PIDLaneFollower.steer_pid self = Some steer
                      /\ PID.solve steer x None = Raise ex).
Proof.
  destruct self as [d sp1 sp2 steer speed lat req], vs as [t x v p u].
  unfold_step; simpl.
  destruct v as [vel |]; simpl; [| intros [= <-]; now left].
  destruct speed as [speed |]; simpl; [| intros [= <-]; now left].
  destruct (PID.solve speed _ None) as [[[a ia] speed'] |] eqn:Ea; simpl.
  2: { intros [= <-]. right; left. eauto. }
  destruct u as [act |]; simpl; [| intros [= <-]; now left].
  destruct steer as [steer |]; simpl; [| intros [= <-]; now left].
  destruct p as [pose |]; simpl; [| intros [= <-]; now left].
  destruct lat as [lat |]; simpl; [| intros [= <-]; now left].
  destruct (PID.solve steer _ None) as [[[s isteer] steer'] |] eqn:Es; simpl.
  - discriminate.
  - intros [= <-]. right; right. eauto.
Qed.

(** Without a velocity the first statement of [step] raises. *)
Lemma step_no_velocity (self : PIDLaneFollower.t) (vs : VehicleState.t) :
  VehicleState.v vs = None ->
  PIDLaneFollower.step self vs
  = (Raise AttributeError, PIDLaneFollower.mk_world self vs).
Proof.
  intros Hv. unfold_step; simpl. now rewrite Hv.
Qed.

Lemma solve_fresh_returns (params : PIDParams.t) (x : Q) (ex : exn) :
  ~ PIDParams.dt params == 0 ->
  PID.solve (PID.fresh params) x None <> Raise ex.
Proof.
  intros Hdt H.
  destruct (solve_locals_eq (PID.fresh params) x None eq_refl Hdt)
    as (l & Hl & _).
  rewrite (solve_of_locals _ _ _ _ Hl) in H. discriminate H.
Qed.

(** A [step] whose speed loop raises, raises the same exception. *)
Lemma step_speed_raises (self : PIDLaneFollower.t) (vs : VehicleState.t)
  (speed : PID.t) (vel : BodyLinearVelocity.t) (ex : exn) :
  PIDLaneFollower.speed_pid self = Some speed ->
  VehicleState.v vs = Some vel ->
  PID.solve speed (BodyLinearVelocity.v_long vel) None = Raise ex ->
  fst (PIDLaneFollower.step self vs) = Raise ex.
Proof.
  intros Hspeed Hv Hsolve.
  destruct self, vs; simpl in *; subst.
  unfold_step; simpl. rewrite Hsolve. reflexivity.
Qed.

(** C9, as amended.  On a constructed controller, [step] with a state
    record that lacks its velocity or its pose raises.  The exception is
    Python's [AttributeError] whenever the velocity is the missing part or
    [dt] is not zero; when [dt] is zero and the velocity is there, it is
    the [ZeroDivisionError] of the speed loop, which comes first.  On the
    object no constructor has run on, [step] raises [AttributeError] for
    every state record, and it raises on every object that lacks one of
    the two loops or the lane reference. *)
Theorem step_malformed_fails
  (h1 h2 : PIDParams.t -> result PIDParams.t) (dt : Q)
  (steer speed : option PIDParams.t)
  (c : PIDLaneFollower.t) (vs : VehicleState.t)
  (Hc : PIDLaneFollower.init h1 h2 dt steer speed = Ok c)
  (Hbad : VehicleState.v vs = None \/ VehicleState.p vs = None) :
  raises (fst (PIDLaneFollower.step c vs))
  /\ (VehicleState.v vs = None \/ ~ dt == 0 ->
      fails_with "AttributeError" (fst (PIDLaneFollower.step c vs)))
  /\ (VehicleState.v vs <> None -> dt == 0 ->
      fst (PIDLaneFollower.step c vs) = Raise ZeroDivisionError)
  /\ (forall vs',
        fails_with "AttributeError"
          (fst (PIDLaneFollower.step PIDLaneFollower.alloc vs')))
  /\ (forall c' vs',
        PIDLaneFollower.speed_pid c' = None
        \/ PIDLaneFollower.steer_pid c' = None
        \/ PIDLaneFollower.lat_ref c' = None ->
        raises (fst (PIDLaneFollower.step c' vs'))).
Proof.
  assert (Hraises : raises (fst (PIDLaneFollower.step c vs))).
  { destruct (fst (PIDLaneFollower.step c vs)) as [out |] eqn:E; [| exact I].
    apply step_returns_inv in E as (Hv & Hp & _).
    destruct Hbad; contradiction. }
  split; [exact Hraises |]. split; [| split; [| split]].
  - intros [Hv | Hdt].
    + rewrite (step_no_velocity c vs Hv). reflexivity.
    + destruct (fst (PIDLaneFollower.step c vs)) as [out | ex] eqn:E;
        [exact Hraises |].
      apply init_inv in Hc as (steer' & speed' & ->).
      apply step_raise_inv in E
        as [-> | [(pid & x & Hpid & Hx) | (pid & x & Hpid & Hx)]].
      * reflexivity.
      * injection Hpid as <-.
        now apply solve_fresh_returns in Hx.
      * injection Hpid as <-. exfalso.
        destruct (solve_locals_eq
                    (PID.set_x_ref (PID.fresh (PIDParams.set_dt dt steer')) 0)
                    x None eq_refl Hdt) as (l & Hl & _).
        rewrite (solve_of_locals _ _ _ _ Hl) in Hx. discriminate Hx.
  - intros Hv Hz.
    destruct (VehicleState.v vs) as [vel |] eqn:Ev; [| now destruct Hv].
    apply init_inv in Hc as (steer' & speed' & ->).
    apply (step_speed_raises _ vs
             (PID.fresh (PIDParams.set_dt dt speed')) vel);
      [reflexivity | exact Ev |].
    apply solve_dt_zero; [reflexivity | exact Hz].
  - intros vs'. unfold_step; simpl.
    destruct (VehicleState.v vs'); reflexivity.
  - intros c' vs' Hmiss.
    destruct (fst (PIDLaneFollower.step c' vs')) as [out |] eqn:E; [| exact I].
    apply step_returns_inv in E as (_ & _ & _ & H1 & H2 & H3).
    destruct Hmiss as [H | [H | H]]; contradiction.
Qed.

Lemma step_malformed_fails_witness :
  PIDLaneFollower.init no_such_method no_such_method (1 # 10)
    (Some pid_steer_params) (Some pid_speed_params)
  = Ok (built (1 # 10) pid_steer_params pid_speed_params)
  /\ VehicleState.p state_no_pose = None
  /\ fails_with "AttributeError"
       (fst (PIDLaneFollower.step
               (built (1 # 10) pid_steer_params pid_speed_params)
               state_no_pose)).
Proof.
  assert (H1 : PIDLaneFollower.init no_such_method no_such_method (1 # 10)
                 (Some pid_steer_params) (Some pid_speed_params)
               = Ok (built (1 # 10) pid_steer_params pid_speed_params))
    by reflexivity.
  assert (H2 : VehicleState.p state_no_pose = None) by reflexivity.
  assert (H3 : ~ 1 # 10 == 0) by (unfold Qeq; simpl; lia).
  exact (conj H1 (conj H2
    (proj1 (proj2 (step_malformed_fails _ _ _ _ _ _ state_no_pose H1
                     (or_intror H2)))
       (or_intror H3)))).
Defined.

(** With [dt = 0] and a record that has its velocity but no pose, the
    exception is the one of the speed loop. *)
Example step_zero_dt_no_pose :
  fst (PIDLaneFollower.step (built 0 pid_steer_params pid_speed_params)
                            state_no_pose)
  = Raise ZeroDivisionError.
Proof. vm_compute; reflexivity. Qed.

(** C9, as stated, fails: the exception [step] raises on a record without
    velocity, on one without pose, and on the object no constructor has run
    on, is of class [AttributeError]; the code has no class
    [InvalidStateError]. *)
Lemma step_error_is_attribute_error :
  fst (PIDLaneFollower.step
         (built (1 # 10) pid_steer_params pid_speed_params) state_no_velocity)
  = Raise AttributeError
  /\ fst (PIDLaneFollower.step
            (built (1 # 10) pid_steer_params pid_speed_params) state_no_pose)
     = Raise AttributeError
  /\ fst (PIDLaneFollower.step PIDLaneFollower.alloc state_at_rest)
     = Raise AttributeError
  /\ ~ fails_with "InvalidStateError"
         (fst (PIDLaneFollower.step
                 (built (1 # 10) pid_steer_params pid_speed_params)
                 state_no_velocity)).
Proof.
  repeat (split; [vm_compute; reflexivity |]).
  vm_compute. discriminate.
Qed.

(** * Further properties of the code *)

(** ** PID: what a call reads *)

(** A call made with a [u_prev] argument does not read the stored previous
    output, and a call made without it reads a stored [None] as zero. *)
Theorem argument_masks_stored_output (self : PID.t) (x given : Q)
  (stored : option Q) :
  PID.solve (with_u_prev stored self) x (Some given)
  = PID.solve self x (Some given)
  /\ PID.solve (with_u_prev None self) x None
     = PID.solve (with_u_prev (Some 0) self) x None.
Proof.
  split.
  - unfold PID.solve, PID.solve_locals; simpl.
    destruct (PID.initialized self); simpl; [| reflexivity].
    destruct (py_div _ _); simpl; [| reflexivity].
    destruct stored, (PID.u_prev self); reflexivity.
  - unfold PID.solve, PID.solve_locals; simpl.
    destruct (PID.initialized self); simpl; [| reflexivity].
    destruct (py_div _ _); reflexivity.
Qed.

(** [solve] never reads the stored difference quotient [de]: what a call
    returns and leaves behind is the same whatever [de] holds.  After
    [clear_errors] a call therefore computes the same error and the same
    difference quotient as without it, and only the integral starts again
    from zero. *)
Theorem stored_de_is_not_read (self : PID.t) (x v : Q) (o : option Q) :
  PID.solve (with_de v self) x o = PID.solve self x o
  /\ PID.clear_errors (PID.clear_errors self) = PID.clear_errors self
  /\ (forall l,
        PID.solve_locals self x o = Ok l ->
        exists l',
          PID.solve_locals (PID.clear_errors self) x o = Ok l'
          /\ PID.e_t l' = PID.e_t l /\ PID.de_t l' = PID.de_t l
          /\ PID.ei_t l'
             = (let c := 0 + PID.e_t l * PID.dt self in
                if Qgtb c (PID.int_e_max self) then PID.int_e_max self
                else if Qltb c (PID.int_e_min self) then PID.int_e_min self
                else c)).
Proof.
  split; [| split].
  - unfold PID.solve, PID.solve_locals; simpl.
    destruct (PID.initialized self); simpl; [| reflexivity].
    destruct (py_div _ _); reflexivity.
  - reflexivity.
  - intros l Hl.
    destruct (solve_locals_ok_inv _ _ _ _ Hl) as [Hi Hdt].
    destruct (solve_locals_eq self x o Hi Hdt)
      as (m & Hm & _ & He & Hde & _).
    rewrite Hl in Hm. injection Hm as <-.
    destruct (solve_locals_eq (PID.clear_errors self) x o Hi Hdt)
      as (l' & Hl' & _ & He' & Hde' & Hei' & _).
    exists l'. simpl in He', Hde', Hei'.
    assert (Ee : PID.e_t l' = PID.e_t l) by (rewrite He, He'; reflexivity).
    split; [exact Hl' |]. split; [exact Ee |].
    split; [rewrite Hde, Hde', Ee; reflexivity |].
    rewrite Hei', Ee. reflexivity.
Qed.

Lemma stored_de_is_not_read_witness :
  exists l l',
    PID.solve_locals (PID.fresh pid_steer_params) 1 None = Ok l
    /\ PID.solve_locals (PID.clear_errors (PID.fresh pid_steer_params)) 1 None
       = Ok l'
    /\ PID.e_t l' = PID.e_t l /\ PID.de_t l' = PID.de_t l.
Proof.
  eexists.
  assert (H : PID.solve_locals (PID.fresh pid_steer_params) 1 None = Ok _)
    by (vm_compute; reflexivity).
  destruct (proj2 (proj2 (stored_de_is_not_read (PID.fresh pid_steer_params)
                            1 0 None)) _ H)
    as (l' & H1 & H2 & H3 & _).
  exists l'. exact (conj H (conj H1 (conj H2 H3))).
Defined.

(** ** PID: what a run of calls keeps *)

Lemma after_call_params (self : PID.t) (call : Q * option Q) :
  params_of (after_call self call) = params_of self
  /\ PID.initialized (after_call self call) = PID.initialized self.
Proof.
  unfold after_call.
  destruct (PID.solve self (fst call) (snd call)) as [r |] eqn:E;
    [| now split].
  apply solve_inv in E as (l & _ & ->). now split.
Qed.

(** [solve] assigns the loop state only.  Through any sequence of calls
    the gains, the bounds, [dt] and the two references stay as they were,
    so that [set_params] with the parameters the instance was built from
    changes nothing, at any point of the run. *)
Theorem calls_keep_parameters (params : PIDParams.t)
  (calls : list (Q * option Q)) :
  params_of (after_calls (PID.fresh params) calls) = params
  /\ PID.set_params (after_calls (PID.fresh params) calls) params
     = after_calls (PID.fresh params) calls.
Proof.
  assert (H : forall self,
             params_of (after_calls self calls) = params_of self).
  { unfold after_calls.
    induction calls as [| call rest IH]; intros self; simpl;
      [reflexivity |].
    rewrite IH. apply after_call_params. }
  assert (E : params_of (after_calls (PID.fresh params) calls) = params).
  { rewrite H. destruct params; reflexivity. }
  split; [exact E |].
  destruct (after_calls (PID.fresh params) calls) as
    [d kp ki kd imax imin umax umin dumax dumin xr ur up e de ei ini].
  unfold params_of in E; simpl in E. subst params. reflexivity.
Qed.

(** [set_params] takes the gains, the bounds and [dt] from the record it
    is given and nothing else: the references of that record are ignored,
    and the loop state and the stored previous output stay. *)
Theorem set_params_keeps_references (self : PID.t) (params : PIDParams.t) :
  PID.get_refs (PID.set_params self params) = PID.get_refs self
  /\ PID.get_errors (PID.set_params self params) = PID.get_errors self
  /\ PID.u_prev (PID.set_params self params) = PID.u_prev self
  /\ params_of (PID.set_params self params)
     = PIDParams.mk (PIDParams.dt params) (PIDParams.Kp params)
         (PIDParams.Ki params) (PIDParams.Kd params)
         (PIDParams.int_e_max params) (PIDParams.int_e_min params)
         (PIDParams.u_max params) (PIDParams.u_min params)
         (PIDParams.du_max params) (PIDParams.du_min params)
         (PID.u_ref self) (PID.x_ref self).
Proof. repeat split. Qed.

(** ** PIDLaneFollower: what [step] assigns *)

(** The attributes of the controller that [step] leaves alone. *)
Lemma step_keeps_controller_fields (self : PIDLaneFollower.t)
  (vs : VehicleState.t) :
  let w := snd (PIDLaneFollower.step self vs) in
  PIDLaneFollower.dt (PIDLaneFollower.self_ w) = PIDLaneFollower.dt self
  /\ PIDLaneFollower.steer_pid_params (PIDLaneFollower.self_ w)
     = PIDLaneFollower.steer_pid_params self
  /\ PIDLaneFollower.speed_pid_params (PIDLaneFollower.self_ w)
     = PIDLaneFollower.speed_pid_params self
  /\ PIDLaneFollower.lat_ref (PIDLaneFollower.self_ w)
     = PIDLaneFollower.lat_ref self
  /\ PIDLaneFollower.requires_env_state (PIDLaneFollower.self_ w)
     = PIDLaneFollower.requires_env_state self.
Proof.
  destruct self as [d sp1 sp2 steer speed lat req], vs as [t x v p u].
  cbv zeta. unfold_step; simpl.
  destruct v as [vel |]; simpl; [| repeat split].
  destruct speed as [speed |]; simpl; [| repeat split].
  destruct (PID.solve speed _ None) as [[[a ia] speed'] |]; simpl;
    [| repeat split].
  destruct u as [act |]; simpl; [| repeat split].
  destruct steer as [steer |]; simpl; [| repeat split].
  destruct p as [pose |]; simpl; [| repeat split].
  destruct lat as [lat |]; simpl; [| repeat split].
  destruct (PID.solve steer _ None) as [[[s isteer] steer'] |]; simpl;
    repeat split.
Qed.

(** [step] assigns the actuation of the caller's record and the two loops
    of the controller, and nothing else, whether it returns or raises: the
    time stamp, position, velocity and pose of the record and the
    parameters, [dt] and lane reference of the controller are as before. *)
Theorem step_frame (self : PIDLaneFollower.t) (vs : VehicleState.t) :
  let w := snd (PIDLaneFollower.step self vs) in
  VehicleState.t_ (PIDLaneFollower.vehicle_state w) = VehicleState.t_ vs
  /\ VehicleState.x (PIDLaneFollower.vehicle_state w) = VehicleState.x vs
  /\ VehicleState.v (PIDLaneFollower.vehicle_state w) = VehicleState.v vs
  /\ VehicleState.p (PIDLaneFollower.vehicle_state w) = VehicleState.p vs
  /\ PIDLaneFollower.dt (PIDLaneFollower.self_ w) = PIDLaneFollower.dt self
  /\ PIDLaneFollower.steer_pid_params (PIDLaneFollower.self_ w)
     = PIDLaneFollower.steer_pid_params self
  /\ PIDLaneFollower.speed_pid_params (PIDLaneFollower.self_ w)
     = PIDLaneFollower.speed_pid_params self
  /\ PIDLaneFollower.lat_ref (PIDLaneFollower.self_ w)
     = PIDLaneFollower.lat_ref self
  /\ PIDLaneFollower.requires_env_state (PIDLaneFollower.self_ w)
     = PIDLaneFollower.requires_env_state self.
Proof.
  destruct self as [d sp1 sp2 steer speed lat req], vs as [t x v p u].
  cbv zeta. unfold_step; simpl.
  destruct v as [vel |]; simpl; [| repeat split].
  destruct speed as [speed |]; simpl; [| repeat split].
  destruct (PID.solve speed _ None) as [[[a ia] speed'] |]; simpl;
    [| repeat split].
  destruct u as [act |]; simpl; [| repeat split].
  destruct steer as [steer |]; simpl; [| repeat split].
  destruct p as [pose |]; simpl; [| repeat split].
  destruct lat as [lat |]; simpl; [| repeat split].
  destruct (PID.solve steer _ None) as [[[s isteer] steer'] |]; simpl;
    repeat split.
Qed.

(** A [step] that raises half-way keeps what it has already assigned.  On
    a record with velocity and actuation but no pose, with the speed loop
    returning, the call raises [AttributeError] after it has advanced the
    speed loop and written the acceleration command into the record; the
    steering loop and the steering command are as before. *)
Theorem step_failure_is_not_atomic (self : PIDLaneFollower.t)
  (vs : VehicleState.t) (speed steer : PID.t)
  (vel : BodyLinearVelocity.t) (act : VehicleActuation.t)
  (a : Q) (ia : PID.info) (speed' : PID.t)
  (Hspeed : PIDLaneFollower.speed_pid self = Some speed)
  (Hsteer : PIDLaneFollower.steer_pid self = Some steer)
  (Hv : VehicleState.v vs = Some vel)
  (Hp : VehicleState.p vs = None)
  (Hu : VehicleState.u vs = Some act)
  (Ha : PID.solve speed (BodyLinearVelocity.v_long vel) None
        = Ok (a, ia, speed')) :
  let out := PIDLaneFollower.step self vs in
  fst out = Raise AttributeError
  /\ PIDLaneFollower.speed_pid (PIDLaneFollower.self_ (snd out)) = Some speed'
  /\ PIDLaneFollower.steer_pid (PIDLaneFollower.self_ (snd out)) = Some steer
  /\ VehicleState.u (PIDLaneFollower.vehicle_state (snd out))
     = Some (VehicleActuation.mk (VehicleActuation.t_ act) a
                                 (VehicleActuation.u_steer act)).
Proof.
  destruct self, vs; simpl in *; subst.
  unfold_step; simpl. rewrite Ha; simpl. repeat split.
Qed.

Lemma step_failure_is_not_atomic_witness :
  exists a,
    fst (PIDLaneFollower.step
           (built (1 # 10) pid_steer_params pid_speed_params) state_no_pose)
    = Raise AttributeError
    /\ VehicleState.u
         (PIDLaneFollower.vehicle_state
            (snd (PIDLaneFollower.step
                    (built (1 # 10) pid_steer_params pid_speed_params)
                    state_no_pose)))
       = Some (VehicleActuation.mk 0 a 0)
    /\ 0 < a.
Proof.
  eexists.
  destruct (step_failure_is_not_atomic
              (built (1 # 10) pid_steer_params pid_speed_params)
              state_no_pose _ _ _ _ _ _ _
              eq_refl eq_refl eq_refl eq_refl eq_refl
              ltac:(vm_compute; reflexivity))
    as (H1 & _ & _ & H4).
  split; [exact H1 |]. split; [exact H4 |].
  vm_compute; reflexivity.
Defined.

(** ** PIDLaneFollower: the control loop *)

Lemma built_ready (dt : Q) (steer speed : PIDParams.t) :
  ~ dt == 0 -> ready (built dt steer speed).
Proof.
  intros Hdt. unfold ready, built; simpl.
  do 5 eexists. repeat split; try reflexivity; exact Hdt.
Qed.

Lemma step_ready (c : PIDLaneFollower.t) (vs : VehicleState.t) :
  ready c -> well_formed vs = true ->
  exists a s w,
    PIDLaneFollower.step c vs = (Ok [a; s], w)
    /\ ready (PIDLaneFollower.self_ w).
Proof.
  intros (speed & steer & lat & p1 & p2 & E1 & E2 & E3 & E4 & E5
          & I1 & D1 & I2 & D2 & D3 & D4) Hwf.
  unfold well_formed in Hwf.
  apply andb_true_iff in Hwf as [Hwf Hu].
  apply andb_true_iff in Hwf as [Hv Hp].
  destruct (VehicleState.v vs) as [vel |] eqn:Ev; [| discriminate].
  destruct (VehicleState.p vs) as [pose |] eqn:Ep; [| discriminate].
  destruct (VehicleState.u vs) as [act |] eqn:Eu; [| discriminate].
  destruct (solve_locals_eq speed (BodyLinearVelocity.v_long vel) None I1 D1)
    as (l1 & Hl1 & _).
  destruct (solve_locals_eq steer
              (5 * (ParametricPose.x_tran pose - lat)
               + 1 * ParametricPose.e_psi pose) None I2 D2)
    as (l2 & Hl2 & _).
  do 3 eexists. split.
  - apply (step_run c vs speed steer lat vel pose act _ _ _ _ _ _
             E1 E2 E3 Ev Ep Eu
             (solve_of_locals _ _ _ _ Hl1) (solve_of_locals _ _ _ _ Hl2)).
  - exists (PID.commit speed l1), (PID.commit steer l2), lat, p1, p2.
    destruct c; simpl in *. repeat split; assumption.
Qed.

Lemma reset_ready (c : PIDLaneFollower.t) :
  ready c -> exists c', PIDLaneFollower.reset c = Ok c' /\ ready c'.
Proof.
  intros (speed & steer & lat & p1 & p2 & E1 & E2 & E3 & E4 & E5
          & I1 & D1 & I2 & D2 & D3 & D4).
  unfold PIDLaneFollower.reset. rewrite E4, E5; simpl.
  eexists. split; [reflexivity |].
  exists (PID.fresh p2), (PID.fresh p1), lat, p1, p2.
  destruct c; simpl in *. repeat split; assumption.
Qed.

(** The control loop never raises on a controller built with a [dt] other
    than zero: any sequence of [reset()] and [step] calls, each [step] on a
    record that has its velocity, pose and actuation, runs to its end and
    returns one vector of two commands per [step]. *)
Theorem run_never_raises (dt : Q) (steer speed : PIDParams.t)
  (events : list event)
  (Hdt : ~ dt == 0)
  (Hwf : forallb well_formed_event events = true) :
  exists outs c,
    run (built dt steer speed) events = Ok (outs, c)
    /\ List.length outs = List.length (filter is_step events)
    /\ Forall (fun out => List.length out = 2%nat) outs.
Proof.
  assert (H : forall c, ready c ->
            exists outs c',
              run c events = Ok (outs, c')
              /\ List.length outs = List.length (filter is_step events)
              /\ Forall (fun out => List.length out = 2%nat) outs).
  { induction events as [| ev rest IH]; intros c Hc; simpl.
    - exists [], c. repeat split. constructor.
    - simpl in Hwf. apply andb_true_iff in Hwf as [Hev Hrest].
      specialize (IH Hrest).
      destruct ev as [vs |]; simpl in *.
      + destruct (step_ready c vs Hc Hev) as (a & s & w & Hstep & Hw).
        rewrite Hstep.
        destruct (IH _ Hw) as (outs & c' & Hrun & Hlen & Hall).
        rewrite Hrun; simpl.
        exists ([a; s] :: outs), c'.
        split; [reflexivity |]. split; [simpl; now rewrite Hlen |].
        constructor; [reflexivity | exact Hall].
      + destruct (reset_ready c Hc) as (c1 & Hreset & Hc1).
        rewrite Hreset; simpl. apply IH, Hc1. }
  apply H, built_ready, Hdt.
Qed.

Lemma run_never_raises_witness :
  exists outs c,
    run (built (1 # 10) pid_steer_params pid_speed_params)
        [Reset; Step state_at_rest; Step state_at_rest; Reset;
         Step state_at_rest]
    = Ok (outs, c)
    /\ List.length outs = 3%nat.
Proof.
  assert (H1 : ~ 1 # 10 == 0) by (unfold Qeq; simpl; lia).
  destruct (run_never_raises (1 # 10) pid_steer_params pid_speed_params
              [Reset; Step state_at_rest; Step state_at_rest; Reset;
               Step state_at_rest] H1 eq_refl)
    as (outs & c & Hrun & Hlen & _).
  exists outs, c. exact (conj Hrun Hlen).
Defined.

(** [reset()] does not depend on the state of the two loops: after any
    [step], returned or raised, it yields the controller it yields before
    the [step], and a second [reset()] changes nothing. *)
Theorem reset_forgets_steps (self self' : PIDLaneFollower.t)
  (vs : VehicleState.t)
  (Hreset : PIDLaneFollower.reset self = Ok self') :
  PIDLaneFollower.reset
    (PIDLaneFollower.self_ (snd (PIDLaneFollower.step self vs)))
  = Ok self'
  /\ PIDLaneFollower.reset self' = Ok self'.
Proof.
  destruct (step_keeps_controller_fields self vs)
    as (F1 & F2 & F3 & F4 & F5).
  cbv zeta in *.
  destruct (PIDLaneFollower.self_ (snd (PIDLaneFollower.step self vs)))
    as [d1 a1 b1 st1 sp1 l1 q1].
  destruct self as [d a b st sp l q]. simpl in *. subst.
  unfold PIDLaneFollower.reset in *; simpl in *.
  destruct a as [pa |]; simpl in *; [| discriminate].
  destruct b as [pb |]; simpl in *; [| discriminate].
  injection Hreset as <-. split; reflexivity.
Qed.

Lemma reset_forgets_steps_witness :
  exists c,
    PIDLaneFollower.reset (built (1 # 10) pid_steer_params pid_speed_params)
    = Ok c
    /\ PIDLaneFollower.reset
         (PIDLaneFollower.self_
            (snd (PIDLaneFollower.step
                    (built (1 # 10) pid_steer_params pid_speed_params)
                    state_at_rest)))
       = Ok c.
Proof.
  eexists.
  assert (H : PIDLaneFollower.reset
                (built (1 # 10) pid_steer_params pid_speed_params) = Ok _)
    by reflexivity.
  exact (conj H (proj1 (reset_forgets_steps _ _ state_at_rest H))).
Defined.

(** The controller's [dt] replaces the [dt] of both parameter records:
    the controller built does not depend on the [dt] the records carry,
    both loops run at the controller's [dt], the steering loop regulates to
    zero, and the lane offset of the steering parameters is kept as
    [lat_ref]. *)
Theorem constructor_dt_wins (h1 h2 : PIDParams.t -> result PIDParams.t)
  (dt d1 d2 : Q) (steer speed : PIDParams.t) :
  PIDLaneFollower.init h1 h2 dt
    (Some (PIDParams.set_dt d1 steer)) (Some (PIDParams.set_dt d2 speed))
  = PIDLaneFollower.init h1 h2 dt (Some steer) (Some speed)
  /\ exists c steer_pid speed_pid,
       PIDLaneFollower.init h1 h2 dt (Some steer) (Some speed) = Ok c
       /\ PIDLaneFollower.steer_pid c = Some steer_pid
       /\ PIDLaneFollower.speed_pid c = Some speed_pid
       /\ PID.dt steer_pid = dt /\ PID.dt speed_pid = dt
       /\ PID.x_ref steer_pid = 0
       /\ PID.x_ref speed_pid = PIDParams.x_ref speed
       /\ PIDLaneFollower.lat_ref c = Some (PIDParams.x_ref steer).
Proof.
  split; [reflexivity |].
  do 3 eexists. split; [apply init_built |].
  simpl. repeat split.
Qed.

(** ** PID: getters *)

(** After a call that returned, [get_errors] reports the error terms of
    that call: the measurement minus the reference, the difference quotient
    against the error stored before, and an integral within the bounds when
    they are in order; [get_refs] reports what it reported before. *)
Theorem get_errors_after_solve (self : PID.t) (x : Q) (o : option Q)
  (r : Q * PID.info * PID.t)
  (Hint : PID.int_e_min self <= PID.int_e_max self)
  (Hsolve : PID.solve self x o = Ok r) :
  exists ei',
    PID.get_errors (snd r)
    = (x - PID.x_ref self,
       (x - PID.x_ref self - PID.e self) / PID.dt self,
       ei')
    /\ ei' = spec_clamp (PID.int_e_min self) (PID.int_e_max self)
               (PID.ei self + (x - PID.x_ref self) * PID.dt self)
    /\ PID.get_refs (snd r) = PID.get_refs self.
Proof.
  apply solve_inv in Hsolve as (l & Hl & ->).
  destruct (solve_locals_ok_inv _ _ _ _ Hl) as [Hi Hnz].
  destruct (solve_locals_eq self x o Hi Hnz)
    as (m & Hm & _ & He & Hde & Hei & _).
  rewrite Hl in Hm. injection Hm as <-.
  exists (PID.ei_t l). simpl. unfold PID.get_errors; simpl.
  rewrite Hei. cbv zeta. rewrite (anti_windup_clamp _ _ _ Hint).
  rewrite Hde, He. repeat split.
Qed.

Lemma get_errors_after_solve_witness :
  exists r,
    PID.solve (PID.fresh pid_speed_params) 3 None = Ok r
    /\ PID.get_refs (snd r) = PID.get_refs (PID.fresh pid_speed_params).
Proof.
  eexists.
  assert (H : PID.solve (PID.fresh pid_speed_params) 3 None = Ok _)
    by (vm_compute; reflexivity).
  assert (H0 : PID.int_e_min (PID.fresh pid_speed_params)
               <= PID.int_e_max (PID.fresh pid_speed_params))
    by (unfold Qle; simpl; lia).
  destruct (get_errors_after_solve (PID.fresh pid_speed_params) 3 None _
              H0 H) as (ei' & _ & _ & H3).
  exact (conj H H3).
Defined.
